(** * Election worksheet parser: [parse_election_data] of app.py

    A shallow embedding of the section-aware parser of the Mannar district
    election analyzer, and the properties of its specification.

    Text is modelled by Rocq's [string], holding the bytes of its UTF-8
    encoding.  [strip] and [float] know the blank characters and the
    decimal digits of Unicode; [upper] and [lower] map the letters a-z
    and A-Z and leave every other byte as it is. *)

From Stdlib Require Import ZArith Ascii String List Bool Lia.
From stdpp Require Import base option list sorting gmap strings pretty.

Local Open Scope string_scope.
Local Open Scope Z_scope.

(** ** Python string methods *)

Module PyStr.

(** [str.isspace] on a character below 128: TAB, LF, VT, FF, CR, the four
    separators FS, GS, RS, US, and the space. *)
Definition isspace (c : ascii) : bool :=
  let n := N_of_ascii c in
  ((9 <=? n) && (n <=? 13) || (28 <=? n) && (n <=? 32))%N.

(** The text whose UTF-8 bytes are [l]. *)
Definition utf8 (l : list N) : string :=
  fold_right (fun n s => String (ascii_of_N n) s) EmptyString l.

(** Every byte of the text satisfies [p]. *)
Fixpoint sforall (p : ascii -> bool) (s : string) : bool :=
  match s with
  | EmptyString => true
  | String c s' => p c && sforall p s'
  end.

(** A byte below 128, and a continuation byte of UTF-8. *)
Definition low (c : ascii) : bool := (N_of_ascii c <? 128)%N.
Definition continuation (c : ascii) : bool :=
  let n := N_of_ascii c in ((128 <=? n) && (n <? 192))%N.

(** The six payload bits of a continuation byte. *)
Definition payload (c : ascii) : option N :=
  if continuation c then Some (N_of_ascii c - 128)%N else None.

(** The code point encoded at the head of [s] and the number of bytes it
    takes; [None] where the bytes are not UTF-8. *)
Definition decode (s : string) : option (N * nat) :=
  match s with
  | EmptyString => None
  | String c1 s1 =>
      let n1 := N_of_ascii c1 in
      if (n1 <? 128)%N then Some (n1, 1%nat)
      else if (n1 <? 192)%N then None
      else if (n1 <? 224)%N then
        match s1 with
        | String c2 _ =>
            b2 ← payload c2; Some ((n1 - 192) * 64 + b2, 2%nat)%N
        | _ => None
        end
      else if (n1 <? 240)%N then
        match s1 with
        | String c2 (String c3 _) =>
            b2 ← payload c2; b3 ← payload c3;
            Some (((n1 - 224) * 64 + b2) * 64 + b3, 3%nat)%N
        | _ => None
        end
      else if (n1 <? 248)%N then
        match s1 with
        | String c2 (String c3 (String c4 _)) =>
            b2 ← payload c2; b3 ← payload c3; b4 ← payload c4;
            Some ((((n1 - 240) * 64 + b2) * 64 + b3) * 64 + b4, 4%nat)%N
        | _ => None
        end
      else None
  end.

(** The other characters that [str.isspace] accepts: U+0085, U+00A0,
    U+1680, U+2000 to U+200A, U+2028, U+2029, U+202F, U+205F, U+3000. *)
Definition unicode_spaces : list string :=
  map utf8
    [ [194; 133]; [194; 160]; [225; 154; 128];
      [226; 128; 128]; [226; 128; 129]; [226; 128; 130]; [226; 128; 131];
      [226; 128; 132]; [226; 128; 133]; [226; 128; 134]; [226; 128; 135];
      [226; 128; 136]; [226; 128; 137]; [226; 128; 138];
      [226; 128; 168]; [226; 128; 169]; [226; 128; 175];
      [226; 129; 159]; [227; 128; 128] ]%N.

Definition unicode_space (w : string) : bool :=
  existsb (String.eqb w) unicode_spaces.

Definition upper_char (c : ascii) : ascii :=
  let n := N_of_ascii c in
  if ((97 <=? n) && (n <=? 122))%N then ascii_of_N (n - 32) else c.

Definition lower_char (c : ascii) : ascii :=
  let n := N_of_ascii c in
  if ((65 <=? n) && (n <=? 90))%N then ascii_of_N (n + 32) else c.

Fixpoint smap (f : ascii -> ascii) (s : string) : string :=
  match s with
  | EmptyString => EmptyString
  | String c s' => String (f c) (smap f s')
  end.

(** [s.upper()] and [s.lower()] *)
Definition upper : string -> string := smap upper_char.
Definition lower : string -> string := smap lower_char.

(** Stripping blanks, [sp] telling the blanks below 128. *)
Section StripBy.
Variable sp : ascii -> bool.

(** Blank characters are dropped from the left: one byte that is a blank,
    or the two or three bytes of one of [unicode_spaces]. *)
Fixpoint lstrip_by (s : string) : string :=
  match s with
  | String c1 s1 =>
      if sp c1 then lstrip_by s1
      else
        match s1 with
        | String c2 s2 =>
            if unicode_space (String c1 (String c2 EmptyString))
            then lstrip_by s2
            else
              match s2 with
              | String c3 s3 =>
                  if unicode_space
                       (String c1 (String c2 (String c3 EmptyString)))
                  then lstrip_by s3 else s
              | EmptyString => s
              end
        | EmptyString => s
        end
  | EmptyString => s
  end.

(** The text is blank characters only. *)
Definition all_blank_by (s : string) : bool :=
  match lstrip_by s with
  | EmptyString => true
  | _ => false
  end.

(** Blank characters are dropped from the right: the text is cut where
    only blanks follow. *)
Fixpoint rstrip_by (s : string) : string :=
  match s with
  | EmptyString => EmptyString
  | String c s' =>
      if all_blank_by s then EmptyString else String c (rstrip_by s')
  end.

Definition strip_by (s : string) : string := rstrip_by (lstrip_by s).

End StripBy.

(** [s.lstrip()], [s.rstrip()], [s.strip()] *)
Definition lstrip : string -> string := lstrip_by isspace.
Definition rstrip : string -> string := rstrip_by isspace.
Definition strip : string -> string := strip_by isspace.

(** [s.startswith(p)] *)
Fixpoint startswith (p s : string) : bool :=
  match p, s with
  | EmptyString, _ => true
  | String a p', String b s' => if Ascii.eqb a b then startswith p' s' else false
  | String _ _, EmptyString => false
  end.

(** [s.startswith(ps)] for a tuple [ps] of prefixes *)
Definition startswith_any (ps : list string) (s : string) : bool :=
  existsb (fun p => startswith p s) ps.

(** [w in s] *)
Fixpoint contains (w s : string) : bool :=
  startswith w s ||
  match s with
  | EmptyString => false
  | String _ s' => contains w s'
  end.

(** [sep.join(l)] *)
Fixpoint join (sep : string) (l : list string) : string :=
  match l with
  | [] => EmptyString
  | [x] => x
  | x :: rest => x ++ sep ++ join sep rest
  end.

End PyStr.
Import PyStr.

(** ** Exceptions and results *)

Inductive exn := ValueError | IndexError | OverflowError.

Inductive result (A : Type) :=
| Ok (a : A)
| Raise (e : exn).
Arguments Ok {A} a.
Arguments Raise {A} e.

Definition rbind {A B} (r : result A) (k : A -> result B) : result B :=
  match r with
  | Ok a => k a
  | Raise e => Raise e
  end.

(** [try: body except (ValueError, IndexError): handler]; any other exception
    keeps propagating. *)
Definition try_except_value_index {A} (body : result A) (handler : result A)
  : result A :=
  match body with
  | Ok a => Ok a
  | Raise ValueError | Raise IndexError => handler
  | Raise e => Raise e
  end.

(** [l[i]] on a Python list *)
Definition py_index {A} (l : list A) (i : nat) : result A :=
  match l !! i with
  | Some x => Ok x
  | None => Raise IndexError
  end.

(** ** Numeric coercion: [float(s)] and [int(x)] *)

Module PyNum.

(** A Python float, as far as [int] can observe it: not-a-number, an
    infinity, or the finite value [(-1)^neg * m * 2^e]. *)
Inductive pyfloat :=
| PFnan
| PFinf (neg : bool)
| PFfinite (neg : bool) (m e : Z).

Definition is_digit (c : ascii) : bool :=
  let n := N_of_ascii c in ((48 <=? n) && (n <=? 57))%N.

Definition digit_value (c : ascii) : Z := Z.of_N (N_of_ascii c) - 48.

(** Underscores are accepted between two digits only; they are removed
    before the number is read. *)
Fixpoint strip_underscores (prev : ascii) (s : string) : option string :=
  match s with
  | EmptyString => if Ascii.eqb prev "_" then None else Some EmptyString
  | String c s' =>
      if Ascii.eqb c "_" then
        if is_digit prev then strip_underscores c s' else None
      else if Ascii.eqb prev "_" && negb (is_digit c) then None
      else option_map (String c) (strip_underscores c s')
  end.

(** The longest prefix of digits: its value, its length, and the rest. *)
Fixpoint read_digits (acc : Z) (n : Z) (s : string) : Z * Z * string :=
  match s with
  | String c s' =>
      if is_digit c then read_digits (10 * acc + digit_value c) (n + 1) s'
      else (acc, n, s)
  | EmptyString => (acc, n, s)
  end.

Definition read_sign (s : string) : bool * string :=
  match s with
  | String "-" s' => (true, s')
  | String "+" s' => (false, s')
  | _ => (false, s)
  end.

(** Round the positive rational [n / d] to the nearest binary64 value, ties
    to even; [None] when the rounded value exceeds the largest finite one. *)
Definition round_binary64 (n d : Z) : option (Z * Z) :=
  let k := Z.log2 n - Z.log2 d in
  let below :=
    if 0 <=? k then n <? d * 2 ^ k else n * 2 ^ (- k) <? d in
  let lg := if below then k - 1 else k in
  let e := Z.max (lg - 52) (-1074) in
  let num := if 0 <=? e then n else n * 2 ^ (- e) in
  let den := if 0 <=? e then d * 2 ^ e else d in
  let q := num / den in
  let r := num mod den in
  let m :=
    if 2 * r <? den then q
    else if den <? 2 * r then q + 1
    else if Z.even q then q else q + 1 in
  if (0 <=? e) && (2 ^ 1024 <=? m * 2 ^ e) then None else Some (m, e).

(** The value [(-1)^neg * mant * 10^e10] as a float. *)
Definition decimal_to_float (neg : bool) (mant e10 : Z) : pyfloat :=
  if mant =? 0 then PFfinite neg 0 0
  else
    let n := if 0 <=? e10 then mant * 10 ^ e10 else mant in
    let d := if 0 <=? e10 then 1 else 10 ^ (- e10) in
    match round_binary64 n d with
    | Some (m, e) => PFfinite neg m e
    | None => PFinf neg
    end.

(** The optional exponent part; an [e] that no digit follows is not part of
    the number. *)
Definition read_exponent (s : string) : Z * string :=
  match s with
  | String c s' =>
      if Ascii.eqb c "e" || Ascii.eqb c "E" then
        let '(eneg, s1) := read_sign s' in
        let '(v, n, rest) := read_digits 0 0 s1 in
        if n =? 0 then (0, s) else ((if eneg then - v else v), rest)
      else (0, s)
  | EmptyString => (0, s)
  end.

(** The decimal digits beyond 0-9 (Unicode 14, the data of Python 3.11):
    the code point of the zero of each script, from U+0660 ARABIC-INDIC
    DIGIT ZERO to U+1FBF0 SEGMENTED DIGIT ZERO; the digits 1 to 9 of the
    script follow it. *)
Definition decimal_zeros : list N :=
  [
    1632; 1776; 1984; 2406; 2534; 2662; 2790; 2918;
    3046; 3174; 3302; 3430; 3558; 3664; 3792; 3872;
    4160; 4240; 6112; 6160; 6470; 6608; 6784; 6800;
    6992; 7088; 7232; 7248; 42528; 43216; 43264; 43472;
    43504; 43600; 44016; 65296; 66720; 68912; 69734; 69872;
    69942; 70096; 70384; 70736; 70864; 71248; 71360; 71472;
    71904; 72016; 72784; 73040; 73120; 92768; 92864; 93008;
    120782; 120792; 120802; 120812; 120822; 123200; 123632; 125264;
    130032 ]%N.

(** [Py_UNICODE_TODECIMAL] on a code point from 127 on *)
Definition to_decimal (cp : N) : option N :=
  match List.find (fun z => (z <=? cp) && (cp <=? z + 9))%N decimal_zeros with
  | Some z => Some (cp - z)%N
  | None => None
  end.

(** The loop of [_PyUnicode_TransformDecimalAndSpaceToASCII]: a character
    below 127 is copied, a blank becomes a space and a decimal digit its
    ASCII digit; at any other character the output ends with a question
    mark.  [skip] counts the bytes left of the character being read. *)
Fixpoint transform_from (skip : nat) (s : string) : string :=
  match s with
  | EmptyString => EmptyString
  | String c s' =>
      match skip with
      | S k => transform_from k s'
      | O =>
          if (N_of_ascii c <? 127)%N then String c (transform_from 0 s')
          else
            match decode s with
            | Some (cp, n) =>
                if unicode_space (substring 0 n s)
                then String " " (transform_from (n - 1) s')
                else
                  match to_decimal cp with
                  | Some d =>
                      String (ascii_of_N (48 + d)) (transform_from (n - 1) s')
                  | None => "?"
                  end
            | None => "?"
            end
      end
  end.

(** An ASCII text is left as it is. *)
Definition transform_decimal_and_space_to_ascii (s : string) : string :=
  if sforall low s then s else transform_from 0 s.

(** [Py_ISSPACE]: TAB, LF, VT, FF, CR and the space; the separators FS,
    GS, RS, US are not among them. *)
Definition float_isspace (c : ascii) : bool :=
  let n := N_of_ascii c in
  ((9 <=? n) && (n <=? 13) || (n =? 32))%N.

Fixpoint float_lstrip (s : string) : string :=
  match s with
  | String c s' => if float_isspace c then float_lstrip s' else s
  | EmptyString => EmptyString
  end.

Fixpoint float_rstrip (s : string) : string :=
  match s with
  | EmptyString => EmptyString
  | String c s' =>
      match float_rstrip s' with
      | EmptyString =>
          if float_isspace c then EmptyString else String c EmptyString
      | t => String c t
      end
  end.

(** The blanks at the two ends are passed over. *)
Definition float_strip (s : string) : string := float_rstrip (float_lstrip s).

(** [float(s)] for a string [s] *)
Definition py_float (s : string) : result pyfloat :=
  match strip_underscores "000"
          (float_strip (transform_decimal_and_space_to_ascii s)) with
  | None => Raise ValueError
  | Some t =>
      let '(neg, body) := read_sign t in
      let word := lower body in
      if String.eqb word "inf" || String.eqb word "infinity" then Ok (PFinf neg)
      else if String.eqb word "nan" then Ok PFnan
      else
        let '(ip, ni, r1) := read_digits 0 0 body in
        let '(mant, nf, r2) :=
          match r1 with
          | String "." r => read_digits ip 0 r
          | _ => (ip, 0, r1)
          end in
        if ni + nf =? 0 then Raise ValueError
        else
          let '(ex, r3) := read_exponent r2 in
          match r3 with
          | EmptyString => Ok (decimal_to_float neg mant (ex - nf))
          | _ => Raise ValueError
          end
  end.

(** [int(x)] for a float [x]: truncation toward zero *)
Definition py_int (x : pyfloat) : result Z :=
  match x with
  | PFnan => Raise ValueError
  | PFinf _ => Raise OverflowError
  | PFfinite neg m e =>
      let t := Z.shiftl m e in
      Ok (if neg then - t else t)
  end.

Definition int_float (s : string) : result Z := rbind (py_float s) py_int.

End PyNum.
Import PyNum.

(** ** The worksheet *)

(** A cell of the uploaded sheet.  [Number] is an integer of a column of
    integers or of mixed values.  A floating-point cell is represented by
    the [Text] of its rendering, and so is an integer of a column held as
    floats (12 is rendered there with a fraction, as 12.0): after
    [df.astype(str)] the parser only ever sees a cell's text. *)
Inductive Cell :=
| Empty
| Number (n : Z)
| Text (s : string).

Definition Row := list string.
Definition DataFrame := list (list Cell).

(** [str(cell)], as [astype(str)] renders the cells of a frame up to
    pandas 2: an absent cell is the float NaN, rendered ["nan"]. *)
Definition cell_str (c : Cell) : string :=
  match c with
  | Empty => "nan"
  | Number n => pretty n
  | Text s => s
  end.

(** [df.astype(str)] *)
Definition astype_str (df : DataFrame) : list Row := map (map cell_str) df.

Record Rec := mkRec { Party : string; Votes : Z; Seats : Z }.

(** [councils_data]: council title -> table, a table being the rows of the
    stored DataFrame in order. *)
Abbreviation ResultSet := (gmap string (list Rec)).

(** ** Section detection (lines 20-31) *)

(** The tuple of prefixes written out in the condition of line 28. *)
Definition literal_prefixes : list string :=
  ["1 -"; "2 -"; "3 -"; "4 -"; "5 -"; "6 -"; "7 -"; "8 -"; "9 -"; "10 -";
   "11 -"; "12 -"; "13 -"; "14 -"; "15 -"; "16 -"; "17 -"; "18 -"; "19 -";
   "20 -"; "21 -"; "22 -"; "23 -"].

(** [tuple(f"{i} -" for i in range(1, 24))] *)
Definition prefixes : list string :=
  map (fun i : nat => pretty i ++ " -") (seq 1 23).

(** The condition of lines 28-29 on one cell; [cell_value] is already
    stripped by the caller. *)
Definition is_council_title (cell_value : string) : bool :=
  let text := lower (strip cell_value) in
  startswith_any literal_prefixes cell_value
  && startswith_any prefixes text
  && (contains "council" text || contains "sabha" text).

(** The inner loop over the columns of one row, with its [break]. *)
Fixpoint scan_row (idx : nat) (cells : Row) : option (nat * string) :=
  match cells with
  | [] => None
  | c :: rest =>
      let cell_value := strip c in
      if is_council_title cell_value then Some (idx, cell_value)
      else scan_row idx rest
  end.

(** The outer loop over [df_str.iterrows()], from row label [idx] on.  The
    frame carries the default index of [pd.read_excel], so that the label of
    a row is its position, the one [df_str.iloc] is later given. *)
Fixpoint find_sections (idx : nat) (rows : list Row) : list (nat * string) :=
  match rows with
  | [] => []
  | row :: rows' =>
      match scan_row idx row with
      | Some sec => sec :: find_sections (S idx) rows'
      | None => find_sections (S idx) rows'
      end
  end.

(** ** Building one section's rows (lines 45-84) *)

(** Line 58-59: the header test on one row. *)
Definition is_header_row (row : Row) : bool :=
  let row_str := upper (join " " row) in
  contains "PARTY" row_str && contains "VOTES" row_str
  && contains "TOTAL" row_str.

(** Line 66: [cell not in ['nan', '', None]]; a cell of [df_str] is a string
    and never [None]. *)
Definition usable (cell : string) : bool :=
  negb (String.eqb cell "nan" || String.eqb cell "").

Definition usable_values (row : Row) : list string := filter (fun c => usable c = true) row.

(** Lines 72-73: [int(float(x)) if x != 'nan' else 0] *)
Definition coerce (x : string) : result Z :=
  if String.eqb x "nan" then Ok 0 else int_float x.

(** Lines 68-84 for one row: [Ok None] when the row leaves [section_data]
    as it is, [Ok (Some r)] when [r] is appended, [Raise e] when an
    exception leaves the inner [try]. *)
Definition row_record (row : Row) : result (option Rec) :=
  let row_data := usable_values row in
  if (3 <=? length row_data)%nat then
    rbind (py_index row_data 0) (fun party =>
    try_except_value_index
      (rbind (rbind (py_index row_data 1) coerce) (fun votes =>
       rbind (rbind (py_index row_data 2) coerce) (fun seats =>
       if negb (String.eqb (upper party) "TOTAL")
       then Ok (Some (mkRec party votes seats))
       else Ok None)))
      (Ok None))
  else Ok None.

(** The loop of lines 49-84 over the rows after the title row, with its two
    variables [header_found] and [section_data]. *)
Fixpoint collect (header_found : bool) (section_data : list Rec)
    (rows : list Row) : result (list Rec) :=
  match rows with
  | [] => Ok section_data
  | row :: rows' =>
      if negb header_found && is_header_row row then
        collect true section_data rows'
      else if header_found then
        rbind (row_record row) (fun o =>
          match o with
          | Some r => collect true (section_data ++ [r]) rows'
          | None => collect true section_data rows'
          end)
      else collect false section_data rows'
  end.

(** The rows [start_idx + 1 .. end_idx - 1] of [df_str]. *)
Definition section_rows (df_str : list Row) (start_idx end_idx : nat)
  : list Row :=
  take (end_idx - start_idx - 1) (drop (S start_idx) df_str).

Definition section_data_of (df_str : list Row) (start_idx end_idx : nat)
  : result (list Rec) :=
  collect false [] (section_rows df_str start_idx end_idx).

(** Line 91: [council_df[council_df['Votes'] > 0]] *)
Definition positive_votes (table : list Rec) : list Rec :=
  filter (fun r => 0 < Votes r) table.

(** Lines 87-92 *)
Definition store_section (council_name : string) (section_data : list Rec)
    (councils_data : ResultSet) : ResultSet :=
  match section_data with
  | [] => councils_data
  | _ :: _ => <[council_name := positive_votes section_data]> councils_data
  end.

(** ** The page: diagnostics written through Streamlit *)

Inductive diag :=
| Found (count : nat) (titles : list string)   (* [st.write], line 34 *)
| Failed (council_name : string) (e : exn).    (* [st.error], line 96 *)

(** Computations that write to the page and may raise. *)
Definition M (A : Type) : Type := list diag -> result A * list diag.

Definition ret {A} (a : A) : M A := fun ui => (Ok a, ui).

Definition bind {A B} (m : M A) (k : A -> M B) : M B :=
  fun ui =>
    match m ui with
    | (Ok a, ui') => k a ui'
    | (Raise e, ui') => (Raise e, ui')
    end.

Definition lift {A} (r : result A) : M A := fun ui => (r, ui).

Definition st_write (d : diag) : M unit := fun ui => (Ok tt, (ui ++ [d])%list).

(** [try: body except Exception as e: handler e] *)
Definition try_except {A} (body : M A) (handler : exn -> M A) : M A :=
  fun ui =>
    match body ui with
    | (Ok a, ui') => (Ok a, ui')
    | (Raise e, ui') => handler e ui'
    end.

Notation "'let!' x ':=' m 'in' k" := (bind m (fun x => k))
  (at level 10, x name, m at level 100, k at level 200).
Notation "'run!' m 'in' k" := (bind m (fun _ => k))
  (at level 10, m at level 100, k at level 200).

(** ** The parser (lines 9-99) *)

(** The loop of lines 37-97 from the section at the head of [sections] on. *)
Fixpoint process_sections (df_str : list Row) (sections : list (nat * string))
    (councils_data : ResultSet) : M ResultSet :=
  match sections with
  | [] => ret councils_data
  | (start_idx, council_name) :: rest =>
      let! councils_data' :=
        try_except
          (let end_idx :=
             match rest with
             | (next_idx, _) :: _ => next_idx
             | [] => length df_str
             end in
           let! section_data :=
             lift (section_data_of df_str start_idx end_idx) in
           ret (store_section council_name section_data councils_data))
          (fun e =>
             run! st_write (Failed council_name e) in ret councils_data) in
      process_sections df_str rest councils_data'
  end.

Definition parse_election_data (df : DataFrame) : M ResultSet :=
  let df_str := astype_str df in
  let council_sections := find_sections 0 df_str in
  run! st_write (Found (length council_sections) council_sections.*2) in
  process_sections df_str council_sections ∅.

(** ** The report (lines 102-251 and 300-345) *)

Module Report.

(** [s.split(sep)] from a position on: [skip] counts the characters of a
    separator just found that are still to be passed over, [cur] is the
    piece read so far. *)
Fixpoint split_from (sep : string) (skip : nat) (cur : string) (s : string)
  : list string :=
  match s with
  | EmptyString => [cur]
  | String c s' =>
      match skip with
      | S k => split_from sep k cur s'
      | O =>
          if startswith sep s
          then cur :: split_from sep (String.length sep - 1) "" s'
          else split_from sep 0 (cur ++ String c "") s'
      end
  end.

(** [s.split(sep)]; an empty separator is refused. *)
Definition py_split (sep s : string) : result (list string) :=
  match sep with
  | EmptyString => Raise ValueError
  | _ => Ok (split_from sep 0 "" s)
  end.

(** Lines 217, 308 and 336:
    [council_name.split(' - ')[1] if ' - ' in council_name else council_name] *)
Definition short_name (council_name : string) : result string :=
  if contains " - " council_name
  then rbind (py_split " - " council_name) (fun pieces => py_index pieces 1)
  else Ok council_name.

(** [Series.idxmax] on a column of machine integers: the position of the
    first greatest value.  [best] is the greatest value seen so far, at
    [best_pos]; [pos] is the position of the head of [l]. *)
Fixpoint argmax_from (best_pos : nat) (best : Z) (pos : nat) (l : list Z)
  : nat :=
  match l with
  | [] => best_pos
  | x :: l' =>
      if best <? x then argmax_from pos x (S pos) l'
      else argmax_from best_pos best (S pos) l'
  end.

(** An empty column has no greatest value: [ValueError]. *)
Definition idxmax (column : list Z) : result nat :=
  match column with
  | [] => Raise ValueError
  | x :: l => Ok (argmax_from 0 x 1 l)
  end.

(** Lines 113 and 333: [df.loc[df['Votes'].idxmax(), 'Party']].  The rows
    of a stored table carry distinct labels, so that the label [idxmax]
    returns selects the row at the position found. *)
Definition winner (table : list Rec) : result string :=
  rbind (idxmax (map Votes table)) (fun i =>
  rbind (py_index table i) (fun r => Ok (Party r))).

(** Lines 317-327: the positions of the councils shown in the grid of the
    overview, in the order the two loops reach them. *)
Definition overview_grid (n : nat) (show_all_overview : bool) : list nat :=
  let rows := ((n + 2) / 3)%nat in
  let display_rows := if show_all_overview then rows else 1%nat in
  flat_map (fun row =>
    flat_map (fun col_idx =>
      let council_idx := (row * 3 + col_idx)%nat in
      if (council_idx <? n)%nat then [council_idx] else [])
      (seq 0 3))
    (seq 0 display_rows).

End Report.
Import Report.

(** ** Scenario A *)

Definition text_grid (g : list (list string)) : DataFrame := map (map Text) g.

Definition scenario_A : DataFrame := text_grid
  [ ["1 - MANNAR URBAN COUNCIL"; ""; ""; ""];
    ["Party"; "Votes"; "Total"; ""];
    ["UNP"; "1500"; "2"; ""];
    ["SLPP"; "1000"; "1"; ""];
    ["TOTAL"; "2500"; "3"; ""];
    ["2 - MANNAR PRADESHIYA SABHA"; ""; ""; ""];
    ["Party"; "Votes"; "Total"; ""];
    ["SLFP"; "800"; "1"; ""] ].

Definition scenario_A_expected : ResultSet :=
  <["1 - MANNAR URBAN COUNCIL" := [mkRec "UNP" 1500 2; mkRec "SLPP" 1000 1]]>
  (<["2 - MANNAR PRADESHIYA SABHA" := [mkRec "SLFP" 800 1]]> ∅).

(** ** Further grids *)

(** One section whose only data row has zero votes. *)
Definition zero_votes_grid : DataFrame := text_grid
  [ ["1 - MANNAR URBAN COUNCIL"; ""; ""];
    ["Party"; "Votes"; "Total"];
    ["UNP"; "0"; "0"] ].

(** A party name with blanks around it and a negative seat count. *)
Definition padded_party_grid : DataFrame := text_grid
  [ ["1 - MANNAR URBAN COUNCIL"; ""; ""];
    ["Party"; "Votes"; "Total"];
    [" UNP "; "1500"; "-2"] ].

(** A votes cell holding the text of an infinity, followed by a clean row. *)
Definition infinite_votes_grid : DataFrame := text_grid
  [ ["1 - MANNAR URBAN COUNCIL"; ""; ""];
    ["Party"; "Votes"; "Total"];
    ["UNP"; "inf"; "2"];
    ["SLPP"; "1000"; "1"] ].

(** The same with a votes cell that is no number at all. *)
Definition unparsable_votes_grid : DataFrame := text_grid
  [ ["1 - MANNAR URBAN COUNCIL"; ""; ""];
    ["Party"; "Votes"; "Total"];
    ["UNP"; "abc"; "2"];
    ["SLPP"; "1000"; "1"] ].

(** A first section that raises, followed by a clean second section. *)
Definition failing_then_clean_grid : DataFrame := text_grid
  [ ["1 - MANNAR URBAN COUNCIL"; ""; ""];
    ["Party"; "Votes"; "Total"];
    ["UNP"; "1e999"; "2"];
    ["2 - MANNAR PRADESHIYA SABHA"; ""; ""];
    ["Party"; "Votes"; "Total"];
    ["SLFP"; "800"; "1"] ].



(** A padded summary row whose seats cell is no number. *)
Definition padded_total_bad_seats_grid : DataFrame := text_grid
  [ ["1 - MANNAR URBAN COUNCIL"; ""; ""];
    ["Party"; "Votes"; "Total"];
    [" TOTAL "; "2500"; "x"] ].

(** A padded summary row with clean numbers, in a sheet with absent and
    numeric cells. *)
Definition padded_total_grid : DataFrame :=
  [ [Text "1 - MANNAR URBAN COUNCIL"; Empty; Empty];
    [Text "Party"; Text "Votes"; Text "Total"];
    [Text "UNP"; Number 1500; Number 2];
    [Text " TOTAL "; Number 2500; Number 3] ].

(** Two sections under one title; the second one has no record. *)
Definition repeated_title_grid : DataFrame := text_grid
  [ ["1 - MANNAR URBAN COUNCIL"; ""; ""];
    ["Party"; "Votes"; "Total"];
    ["UNP"; "1500"; "2"];
    ["1 - MANNAR URBAN COUNCIL"; ""; ""];
    ["Party"; "Votes"; "Total"];
    ["SLPP"; "x"; "1"] ].

(** A title written after a no-break space (U+00A0). *)
Definition nbsp_title : string := utf8 [194; 160]%N ++ "1 - X COUNCIL".

Definition nbsp_title_grid : DataFrame := text_grid
  [ [nbsp_title; ""; ""];
    ["Party"; "Votes"; "Total"];
    ["UNP"; "1500"; "2"] ].

(** The rows under the header of the first section of Scenario A. *)
Definition scenario_A_first_rows : list Row :=
  [ ["UNP"; "1500"; "2"; ""]; ["SLPP"; "1000"; "1"; ""];
    ["TOTAL"; "2500"; "3"; ""] ].

(** ** The specification's vocabulary *)

(** [t] starts with the decimal numeral of some [N] in 1..23 followed by
    a space and a dash. *)
Definition numbered_prefix (t : string) : Prop :=
  ∃ N : nat, (1 ≤ N ≤ 23)%nat ∧ ∃ rest, t = pretty N ++ " -" ++ rest.

(** [t] has a substring equal to [w] up to the case of letters. *)
Definition contains_ci (w t : string) : Prop :=
  ∃ pre mid post, t = pre ++ mid ++ post ∧ lower mid = lower w.

(** Equality up to the case of letters. *)
Definition eq_ci (a b : string) : Prop := lower a = lower b.

(** The detection rule of the SectionDetector on one cell. *)
Definition qualifies (cell : string) : Prop :=
  numbered_prefix (strip cell)
  ∧ (contains_ci "council" (strip cell) ∨ contains_ci "sabha" (strip cell)).

(** One blank character: a blank below 128, or one of [unicode_spaces]. *)
Definition blank_char (sp : ascii -> bool) (w : string) : Prop :=
  (∃ c, w = String c "" ∧ sp c = true) ∨ In w unicode_spaces.

(** A run of blank characters. *)
Inductive blank (sp : ascii -> bool) : string -> Prop :=
| blank_nil : blank sp ""
| blank_cons w s : blank_char sp w → blank sp s → blank sp (w ++ s).

(** The text neither starts nor ends with a blank character. *)
Definition trimmed (sp : ascii -> bool) (t : string) : Prop :=
  (∀ w u, blank_char sp w → t ≠ w ++ u)
  ∧ (∀ w u, blank_char sp w → t ≠ u ++ w).

(** [t] is the text [s] without the blanks at its two ends. *)
Definition trim_of (sp : ascii -> bool) (s t : string) : Prop :=
  ∃ l r, s = l ++ t ++ r ∧ blank sp l ∧ blank sp r ∧ trimmed sp t.

(** The detection rule in its own words: [title] is the trimmed text of
    the cell, it starts with "N -" for some N in 1..23, and it holds
    "council" or "sabha" up to case. *)
Definition detects (cell title : string) : Prop :=
  trim_of isspace cell title
  ∧ numbered_prefix title
  ∧ (contains_ci "council" title ∨ contains_ci "sabha" title).


(** The Record of the data model: party non-empty and trimmed, votes and
    seats not negative. *)
Definition well_formed (r : Rec) : Prop :=
  Party r ≠ "" ∧ strip (Party r) = Party r ∧ 0 ≤ Votes r ∧ 0 ≤ Seats r.

(** The end of the section that is followed by the sections [rest]
    (lines 40-43). *)
Definition end_of (df_str : list Row) (rest : list (nat * string)) : nat :=
  match rest with
  | (next_idx, _) :: _ => next_idx
  | [] => length df_str
  end.

(** What the loop over the sections leaves in [councils_data]: a section
    whose rows raise leaves it as it was. *)
Fixpoint stored (df_str : list Row) (sections : list (nat * string))
    (councils_data : ResultSet) : ResultSet :=
  match sections with
  | [] => councils_data
  | (start_idx, council_name) :: rest =>
      stored df_str rest
        match section_data_of df_str start_idx (end_of df_str rest) with
        | Ok section_data => store_section council_name section_data councils_data
        | Raise _ => councils_data
        end
  end.

(** The page after the loop: one [Failed] line per section whose rows
    raise. *)
Fixpoint failures (df_str : list Row) (sections : list (nat * string))
  : list diag :=
  match sections with
  | [] => []
  | (start_idx, council_name) :: rest =>
      match section_data_of df_str start_idx (end_of df_str rest) with
      | Ok _ => failures df_str rest
      | Raise e => Failed council_name e :: failures df_str rest
      end
  end.

(** The records of the rows that emit one, in row order. *)
Definition emitted (rows : list Row) : list Rec :=
  omap (fun row => match row_record row with
                   | Ok o => o
                   | Raise _ => None
                   end) rows.

(** * Properties *)

(** ** Characters and strings *)

Ltac each_char c := destruct c as [[] [] [] [] [] [] [] []].

Lemma lower_upper_char c : lower_char (upper_char c) = lower_char c.
Proof. each_char c; reflexivity. Qed.

Lemma upper_lower_char c : upper_char (lower_char c) = upper_char c.
Proof. each_char c; reflexivity. Qed.

Lemma smap_app f a b : smap f (a ++ b) = smap f a ++ smap f b.
Proof. induction a as [|c a IH]; simpl; [done | by rewrite IH]. Qed.

Lemma smap_compose f g h s :
  (∀ c, f (g c) = h c) → smap f (smap g s) = smap h s.
Proof. intros E. induction s as [|c s IH]; simpl; [done | by rewrite E, IH]. Qed.

Lemma lower_app a b : lower (a ++ b) = lower a ++ lower b.
Proof. apply smap_app. Qed.


Lemma lower_upper s : lower (upper s) = lower s.
Proof. apply smap_compose, lower_upper_char. Qed.

Lemma upper_lower s : upper (lower s) = upper s.
Proof. apply smap_compose, upper_lower_char. Qed.

Lemma upper_eq_iff_lower_eq a b : upper a = upper b ↔ lower a = lower b.
Proof.
  split; intros E.
  - by rewrite <- (lower_upper a), E, lower_upper.
  - by rewrite <- (upper_lower a), E, upper_lower.
Qed.

(** Splitting the image of a string under a character map. *)
Lemma smap_eq_app f s a b :
  smap f s = a ++ b → ∃ a' b', s = a' ++ b' ∧ smap f a' = a ∧ smap f b' = b.
Proof.
  revert s. induction a as [|c a IH]; intros s E; simpl in E.
  - by exists "", s.
  - destruct s as [|d s]; simpl in E; [done|].
    injection E as Ec E. destruct (IH _ E) as (a' & b' & -> & <- & <-).
    exists (String d a'), b'. by rewrite <- Ec.
Qed.

Lemma app_cons c (a b : string) : String c a ++ b = String c (a ++ b).
Proof. reflexivity. Qed.

Lemma app_assoc_s (a b c : string) : (a ++ b) ++ c = a ++ b ++ c.
Proof. induction a as [|x a IH]; [done | by rewrite !app_cons, IH]. Qed.

Lemma app_empty_l (a : string) : "" ++ a = a.
Proof. reflexivity. Qed.

Lemma app_empty_r (a : string) : a ++ "" = a.
Proof. induction a as [|x a IH]; [done | by rewrite app_cons, IH]. Qed.

Lemma length_app_s (a b : string) :
  String.length (a ++ b) = (String.length a + String.length b)%nat.
Proof.
  induction a as [|c a IH]; [done|]. rewrite app_cons. simpl. by rewrite IH.
Qed.

Lemma startswith_iff p s : startswith p s = true ↔ ∃ rest, s = p ++ rest.
Proof.
  revert s. induction p as [|a p IH]; intros s; simpl.
  - split; [by exists s | done].
  - destruct s as [|b s].
    + split; [done | by intros [? ?]].
    + destruct (Ascii.eqb_spec a b) as [->|Hab].
      * rewrite IH. split; intros [r E]; exists r; [by rewrite E | by injection E].
      * split; [done | intros [r E]; injection E; congruence].
Qed.

Lemma contains_iff w s :
  contains w s = true ↔ ∃ pre post, s = pre ++ w ++ post.
Proof.
  induction s as [|c s IH]; simpl.
  - rewrite orb_false_r, startswith_iff. split.
    + intros [r E]. by exists "", r.
    + intros (pre & post & E). exists post.
      destruct pre; [done | discriminate].
  - rewrite orb_true_iff, startswith_iff, IH. split.
    + intros [[r E] | (pre & post & E)].
      * by exists "", r.
      * exists (String c pre), post. simpl. by rewrite E.
    + intros (pre & post & E). destruct pre as [|d pre]; simpl in E.
      * left. by exists post.
      * right. injection E as _ E. by exists pre, post.
Qed.

(** The test [w in s.lower()] is containment up to case, for a lower-case
    [w]. *)
Lemma contains_lower_iff w s :
  lower w = w → contains w (lower s) = true ↔ contains_ci w s.
Proof.
  intros Hw. rewrite contains_iff. unfold contains_ci. rewrite Hw. split.
  - intros (pre & post & E).
    apply smap_eq_app in E as (pre' & r & -> & _ & E).
    apply smap_eq_app in E as (mid & post' & -> & E & _).
    by exists pre', mid, post'.
  - intros (pre & mid & post & -> & E).
    exists (lower pre), (lower post). by rewrite !lower_app, E.
Qed.


(** *** [strip] *)

Lemma app_eq_app_le (a b c d : string) :
  a ++ b = c ++ d → (String.length a ≤ String.length c)%nat →
  ∃ m, c = a ++ m ∧ b = m ++ d.
Proof.
  revert c. induction a as [|x a IH]; intros c H Hlen.
  - exists c. by rewrite app_empty_l in *.
  - destruct c as [|y c]; [simpl in Hlen; lia|].
    rewrite !app_cons in H. injection H as -> H. simpl in Hlen.
    destruct (IH c H) as (m & -> & ->); [lia|]. by exists m.
Qed.

(** The encodings in [unicode_spaces]: a first byte of 194 or more, then
    one or two continuation bytes; none is the start of another. *)
Lemma unicode_spaces_shape w :
  In w unicode_spaces →
  ∃ c1 c2 tl, w = String c1 (String c2 tl)
    ∧ low c1 = false ∧ continuation c1 = false
    ∧ continuation c2 = true ∧ sforall continuation tl = true
    ∧ ((tl = "" ∧ unicode_space (String c1 (String c2 "")) = true)
       ∨ (∃ c3, tl = String c3 ""
            ∧ unicode_space (String c1 (String c2 "")) = false
            ∧ unicode_space (String c1 (String c2 (String c3 ""))) = true)).
Proof.
  intros H. unfold unicode_spaces in H. simpl in H.
  repeat (destruct H as [<-|H];
    [eexists _, _, _; split; [reflexivity|];
     split_and!; try reflexivity;
     first [left; split; reflexivity
           | right; eexists; split_and!; reflexivity] |]).
  done.
Qed.

Lemma unicode_space_In w : unicode_space w = true ↔ In w unicode_spaces.
Proof.
  unfold unicode_space. rewrite existsb_exists. split.
  - intros (x & Hx & E). apply String.eqb_eq in E. by subst.
  - intros H. exists w. split; [done|]. apply String.eqb_refl.
Qed.

Section StripTheory.
Variable sp : ascii -> bool.
Hypothesis sp_low : ∀ c, sp c = true → low c = true.

Abbreviation lstrip := (lstrip_by sp).
Abbreviation rstrip := (rstrip_by sp).
Abbreviation all_blank := (all_blank_by sp).

Lemma low_not_continuation c : low c = true → continuation c = false.
Proof.
  unfold low, continuation. intros H%N.ltb_lt.
  apply andb_false_iff. left. apply N.leb_gt. lia.
Qed.

Lemma blank_char_head w :
  blank_char sp w → ∃ c tl, w = String c tl ∧ continuation c = false.
Proof.
  intros [(c & -> & Hc)|H].
  - exists c, "". split; [done|]. by apply low_not_continuation, sp_low.
  - destruct (unicode_spaces_shape w H) as (c1 & c2 & tl & -> & _ & ? & _).
    by exists c1, (String c2 tl).
Qed.

(** Stripping a blank character off the front. *)
Lemma lstrip_blank_char w s :
  blank_char sp w → lstrip (w ++ s) = lstrip s.
Proof.
  intros [(c & -> & Hc)|H].
  - rewrite app_cons, app_empty_l. simpl. by rewrite Hc.
  - destruct (unicode_spaces_shape w H)
      as (c1 & c2 & tl & -> & Hlow & _ & _ & _ & Hcase).
    assert (Hsp : sp c1 = false).
    { destruct (sp c1) eqn:E; [|done]. apply sp_low in E. congruence. }
    destruct Hcase as [[-> H2]|(c3 & -> & H2 & H3)].
    + rewrite !app_cons, app_empty_l. simpl. by rewrite Hsp, H2.
    + rewrite !app_cons, app_empty_l. simpl. by rewrite Hsp, H2, H3.
Qed.

(** What [lstrip] does in one step. *)
Lemma lstrip_cases s :
  lstrip s = s ∧ (∀ w u, blank_char sp w → s ≠ w ++ u)
  ∨ ∃ w u, blank_char sp w ∧ s = w ++ u ∧ lstrip s = lstrip u.
Proof.
  destruct s as [|c1 s1]; [left; split; [done|]|].
  { intros w u Hw E. destruct (blank_char_head w Hw) as (c & tl & -> & _).
    discriminate E. }
  destruct (sp c1) eqn:E1.
  { right. exists (String c1 ""), s1. split_and!; [left; eauto | done |].
    simpl. by rewrite E1. }
  assert (Hnot1 : ∀ c, sp c = true → c ≠ c1) by (intros c Hc ->; congruence).
  destruct s1 as [|c2 s2].
  { left. split; [simpl; by rewrite E1|]. intros w u [(c & -> & Hc)|Hw] E.
    - injection E as <- _. congruence.
    - destruct (unicode_spaces_shape w Hw) as (? & ? & ? & -> & _).
      discriminate E. }
  destruct (unicode_space (String c1 (String c2 ""))) eqn:E2.
  { right. exists (String c1 (String c2 "")), s2.
    split_and!; [right; by apply unicode_space_In | done |].
    simpl. by rewrite E1, E2. }
  destruct s2 as [|c3 s3].
  { left. split; [simpl; by rewrite E1, E2|].
    intros w u [(c & -> & Hc)|Hw] E.
    - injection E as <- _. congruence.
    - destruct (unicode_spaces_shape w Hw)
        as (d1 & d2 & tl & -> & _ & _ & _ & _ & [[-> H2]|(d3 & -> & _)]).
      + injection E as <- <- _. congruence.
      + discriminate E. }
  destruct (unicode_space (String c1 (String c2 (String c3 "")))) eqn:E3.
  { right. exists (String c1 (String c2 (String c3 ""))), s3.
    split_and!; [right; by apply unicode_space_In | done |].
    simpl. by rewrite E1, E2, E3. }
  left. split; [simpl; by rewrite E1, E2, E3|].
  intros w u [(c & -> & Hc)|Hw] E.
  - injection E as <- _. congruence.
  - destruct (unicode_spaces_shape w Hw)
      as (d1 & d2 & tl & -> & _ & _ & _ & _ & [[-> H2]|(d3 & -> & _ & H3)]).
    + injection E as <- <- _. congruence.
    + injection E as <- <- <- _. congruence.
Qed.

Lemma lstrip_blank l s : blank sp l → lstrip (l ++ s) = lstrip s.
Proof.
  induction 1 as [|w l Hw _ IH]; [done|].
  by rewrite app_assoc_s, lstrip_blank_char.
Qed.

Lemma blank_char_length w : blank_char sp w → (0 < String.length w)%nat.
Proof.
  intros (c & tl & -> & _)%blank_char_head. simpl. lia.
Qed.

Lemma lstrip_split s :
  ∃ l, blank sp l ∧ s = l ++ lstrip s
    ∧ (∀ w u, blank_char sp w → lstrip s ≠ w ++ u).
Proof.
  assert (H : ∀ n s, (String.length s ≤ n)%nat →
    ∃ l, blank sp l ∧ s = l ++ lstrip s
      ∧ (∀ w u, blank_char sp w → lstrip s ≠ w ++ u)).
  { clear s. induction n as [|n IH]; intros s Hlen.
    - destruct s; [|simpl in Hlen; lia].
      exists "". split_and!; [constructor | done |].
      intros w u Hw E. apply blank_char_length in Hw.
      destruct w; [simpl in Hw; lia | discriminate E].
    - destruct (lstrip_cases s) as [[E Hno]|(w & u & Hw & -> & E)].
      + exists "". rewrite E. split_and!; [constructor | done | done].
      + destruct (IH u) as (l & Hl & Hu & Hno).
        { pose proof (blank_char_length w Hw).
          rewrite length_app_s in Hlen. lia. }
        exists (w ++ l). rewrite E. split_and!; [by constructor | | done].
        by rewrite app_assoc_s, <- Hu. }
  by apply (H (String.length s)).
Qed.

Lemma all_blank_iff s : all_blank s = true ↔ blank sp s.
Proof.
  unfold all_blank_by. split.
  - destruct (lstrip_split s) as (l & Hl & Hs & _).
    destruct (lstrip s); [|done]. intros _.
    rewrite app_empty_r in Hs. by subst.
  - intros H. pose proof (lstrip_blank s "" H) as E.
    rewrite app_empty_r in E. by rewrite E.
Qed.

Lemma rstrip_split s : ∃ r, blank sp r ∧ s = rstrip s ++ r.
Proof.
  induction s as [|c s (r & Hr & IH)]; [exists ""; split; [constructor|done]|].
  simpl. destruct (all_blank (String c s)) eqn:E.
  - exists (String c s). split; [by apply all_blank_iff | done].
  - exists r. split; [done|]. by rewrite app_cons, <- IH.
Qed.

Lemma blank_app a b : blank sp a → blank sp b → blank sp (a ++ b).
Proof.
  induction 1 as [|w a Hw _ IH]; [done|]. intros Hb.
  rewrite app_assoc_s. constructor; [done | by apply IH].
Qed.

Lemma blank_char_blank w : blank_char sp w → blank sp w.
Proof. intros H. rewrite <- (app_empty_r w). constructor; [done|constructor]. Qed.

Lemma blank_snoc r :
  blank sp r → r ≠ "" → ∃ u w, r = u ++ w ∧ blank sp u ∧ blank_char sp w.
Proof.
  induction 1 as [|w s Hw Hs IH]; [done|]. intros _.
  destruct s as [|c s].
  - exists "", w. rewrite app_empty_r. split_and!; [done | constructor | done].
  - destruct IH as (u & w' & E & Hu & Hw'); [done|].
    exists (w ++ u), w'. rewrite E, app_assoc_s.
    split_and!; [done | by constructor | done].
Qed.

Lemma blank_inv r :
  blank sp r →
  r = "" ∨ ∃ w s, blank_char sp w ∧ blank sp s ∧ r = w ++ s.
Proof. destruct 1 as [|w s Hw Hs]; [by left | right; by exists w, s]. Qed.

(** A blank character at the head of [t ++ r], [r] a run of blanks, lies
    within [t]. *)
Lemma blank_char_boundary t r w u :
  blank sp r → t ≠ "" → blank_char sp w → t ++ r = w ++ u →
  (String.length w ≤ String.length t)%nat.
Proof.
  intros Hr Ht Hw E.
  destruct (Nat.le_gt_cases (String.length w) (String.length t)); [done|].
  exfalso.
  destruct (app_eq_app_le t r w u E) as (m & -> & ->); [lia|].
  assert (m ≠ "") by (intros ->; rewrite app_empty_r in H; lia).
  destruct Hw as [(c & Hc & _)|Hw].
  { destruct t as [|x [|y t]]; [done | |]; destruct m; try done;
      discriminate Hc. }
  destruct (unicode_spaces_shape _ Hw)
    as (c1 & c2 & tl & Hshape & _ & _ & Hc2 & Htl & _).
  assert (Hm : ∃ c m', m = String c m' ∧ continuation c = true).
  { destruct t as [|x t]; [done|]. destruct m as [|c m']; [done|].
    rewrite app_cons in Hshape. injection Hshape as -> Hshape.
    exists c, m'. split; [done|].
    assert (Hall : sforall continuation (String c2 tl) = true)
      by (simpl; by rewrite Hc2, Htl).
    rewrite <- Hshape in Hall. clear -Hall.
    induction t as [|y t IH]; simpl in Hall.
    - by apply andb_true_iff in Hall as [? _].
    - apply andb_true_iff in Hall as [_ Hall]. by apply IH. }
  destruct Hm as (c & m' & -> & Hc).
  destruct (blank_inv _ Hr) as [E0|(w' & s & Hw' & _ & E0)].
  - rewrite app_cons in E0. discriminate E0.
  - destruct (blank_char_head w' Hw') as (d & tl' & -> & Hd).
    rewrite !app_cons in E0. injection E0 as -> _. congruence.
Qed.

Lemma blank_app_inv a r : blank sp r → blank sp (a ++ r) → blank sp a.
Proof.
  intros Hr.
  assert (H : ∀ n a, (String.length a ≤ n)%nat →
            blank sp (a ++ r) → blank sp a).
  { clear a. induction n as [|n IH]; intros a Hlen Ha.
    - destruct a; [constructor | simpl in Hlen; lia].
    - destruct a as [|c a']; [constructor|].
      destruct (blank_inv _ Ha) as [E0|(w & s & Hw & Hs & E0)].
      { rewrite app_cons in E0. discriminate E0. }
      assert (Hne : String c a' ≠ "") by done.
      pose proof (blank_char_boundary _ r w s Hr Hne Hw E0) as Hle.
      symmetry in E0.
      destruct (app_eq_app_le w s _ r E0 Hle) as (m & Em & ->).
      rewrite Em. constructor; [done|]. apply IH; [|done].
      pose proof (blank_char_length w Hw).
      rewrite Em, length_app_s in Hlen. lia. }
  by apply (H (String.length a)).
Qed.

Lemma rstrip_app_blank t r : blank sp r → rstrip (t ++ r) = rstrip t.
Proof.
  intros Hr. induction t as [|c t IH].
  - rewrite app_empty_l. destruct r as [|c r]; [done|]. simpl.
    by rewrite (proj2 (all_blank_iff _) Hr).
  - rewrite app_cons. simpl. rewrite <- app_cons, IH.
    destruct (all_blank (String c t)) eqn:E.
    + apply all_blank_iff in E.
      by rewrite (proj2 (all_blank_iff _) (blank_app _ _ E Hr)).
    + destruct (all_blank (String c t ++ r)) eqn:E'; [|done].
      apply all_blank_iff in E'. apply (blank_app_inv _ _ Hr) in E'.
      apply all_blank_iff in E'. congruence.
Qed.

Lemma rstrip_by_idem s : rstrip (rstrip s) = rstrip s.
Proof.
  destruct (rstrip_split s) as (r & Hr & E).
  rewrite E at 2. by rewrite rstrip_app_blank.
Qed.

Lemma rstrip_length s : (String.length (rstrip s) ≤ String.length s)%nat.
Proof.
  destruct (rstrip_split s) as (r & _ & E). rewrite E at 2.
  rewrite length_app_s. lia.
Qed.

Lemma rstrip_no_blank_end s w u : blank_char sp w → rstrip s ≠ u ++ w.
Proof.
  intros Hw E. pose proof (rstrip_by_idem s) as Hi. rewrite E in Hi.
  rewrite (rstrip_app_blank _ _ (blank_char_blank _ Hw)) in Hi.
  pose proof (rstrip_length u). rewrite Hi, length_app_s in H.
  pose proof (blank_char_length w Hw). lia.
Qed.

Lemma lstrip_fixed s :
  (∀ w u, blank_char sp w → s ≠ w ++ u) → lstrip s = s.
Proof.
  intros Hno. destruct (lstrip_cases s) as [[E _]|(w & u & Hw & E & _)]; [done|].
  by destruct (Hno w u).
Qed.

Lemma rstrip_fixed s :
  (∀ w u, blank_char sp w → s ≠ u ++ w) → rstrip s = s.
Proof.
  intros Hno. destruct (rstrip_split s) as (r & Hr & E).
  destruct r as [|c r]; [by rewrite app_empty_r in E|].
  destruct (blank_snoc _ Hr) as (u & w & Er & _ & Hw); [done|].
  destruct (Hno w (rstrip s ++ u) Hw). by rewrite app_assoc_s, <- Er.
Qed.

(** The stripped text is trimmed, and it is the only trimmed text that the
    text holds between two runs of blanks. *)
Lemma strip_trim_of s : trim_of sp s (strip_by sp s).
Proof.
  unfold strip_by.
  destruct (lstrip_split s) as (l & Hl & Es & Hfront).
  destruct (rstrip_split (lstrip s)) as (r & Hr & Et).
  exists l, r. split_and!; [by rewrite <- Et | done | done |].
  split; [|intros w u Hw; by apply rstrip_no_blank_end].
  intros w u Hw E. apply (Hfront w (u ++ r) Hw).
  by rewrite Et at 1; rewrite E, app_assoc_s.
Qed.

Lemma trim_of_strip s t : trim_of sp s t → strip_by sp s = t.
Proof.
  intros (l & r & -> & Hl & Hr & Hfront & Hback). unfold strip_by.
  rewrite (lstrip_blank _ _ Hl).
  destruct t as [|c t'].
  - rewrite app_empty_l.
    pose proof (proj2 (all_blank_iff r) Hr) as E. unfold all_blank_by in E.
    by destruct (lstrip r).
  - set (t := String c t') in *.
    rewrite lstrip_fixed.
    + rewrite (rstrip_app_blank _ _ Hr). by apply rstrip_fixed.
    + intros w u Hw E.
      assert (Hne : t ≠ "") by done.
      pose proof (blank_char_boundary t r w u Hr Hne Hw E) as Hle.
      symmetry in E.
      destruct (app_eq_app_le w u t r E Hle) as (m & Ht & _).
      by destruct (Hfront w m).
Qed.

Lemma strip_by_idem s : strip_by sp (strip_by sp s) = strip_by sp s.
Proof.
  apply trim_of_strip. destruct (strip_trim_of s) as (_ & _ & _ & _ & _ & Ht).
  exists "", "". rewrite app_empty_l, app_empty_r.
  split_and!; [done | constructor | constructor | done].
Qed.

(** Text made of non-blank bytes below 128 is left as it is. *)
Lemma strip_by_plain s :
  sforall (fun c => low c && negb (sp c)) s = true → strip_by sp s = s.
Proof.
  intros Hs. apply trim_of_strip. exists "", "".
  rewrite app_empty_l, app_empty_r.
  split_and!; [done | constructor | constructor |].
  assert (Hin : ∀ w a b, blank_char sp w → s = a ++ w ++ b → False).
  { intros w a b Hw ->.
    assert (Hw' : sforall (fun c => low c && negb (sp c)) w = true).
    { clear -Hs. induction a as [|x a IH].
      - rewrite app_empty_l in Hs. induction w as [|y w IHw]; [done|].
        rewrite app_cons in Hs. simpl in *.
        apply andb_true_iff in Hs as [-> Hs]. by apply IHw.
      - rewrite app_cons in Hs. simpl in Hs.
        apply andb_true_iff in Hs as [_ Hs]. by apply IH. }
    destruct Hw as [(c & -> & Hc)|Hw].
    - simpl in Hw'. rewrite Hc in Hw'. simpl in Hw'.
      by rewrite andb_false_r in Hw'.
    - destruct (unicode_spaces_shape w Hw) as (c1 & ? & ? & -> & Hlow & _).
      simpl in Hw'. by rewrite Hlow in Hw'. }
  split; intros w u Hw E.
  - apply (Hin w "" u Hw). by rewrite app_empty_l.
  - apply (Hin w u "" Hw). by rewrite app_empty_r.
Qed.

End StripTheory.

Lemma isspace_low c : isspace c = true → low c = true.
Proof.
  each_char c; intros H; solve [reflexivity | vm_compute in H; discriminate H].
Qed.

Lemma strip_idem s : strip (strip s) = strip s.
Proof. apply strip_by_idem, isspace_low. Qed.

(** [strip] gives the trimmed text of a cell, and nothing else is. *)
Lemma strip_trimmed s t : trim_of isspace s t ↔ t = strip s.
Proof.
  split.
  - intros H. symmetry. by apply trim_of_strip; [apply isspace_low|].
  - intros ->. apply strip_trim_of, isspace_low.
Qed.

(** *** The numbered prefixes *)

Lemma literal_prefixes_generated : literal_prefixes = prefixes.
Proof. reflexivity. Qed.

Lemma prefixes_lower p : In p prefixes → lower p = p.
Proof.
  intros Hp.
  assert (H : forallb (fun q => String.eqb (lower q) q) prefixes = true)
    by reflexivity.
  rewrite forallb_forall in H. by apply String.eqb_eq, H.
Qed.

Lemma startswith_any_prefixes t :
  startswith_any prefixes t = true ↔ numbered_prefix t.
Proof.
  unfold startswith_any, numbered_prefix, prefixes.
  rewrite existsb_exists. split.
  - intros (p & Hp & Hs). apply in_map_iff in Hp as (N & <- & HN).
    apply in_seq in HN. apply startswith_iff in Hs as [rest ->].
    exists N. split; [lia|]. exists rest. by rewrite app_assoc_s.
  - intros (N & HN & rest & ->). exists (pretty N ++ " -"). split.
    + apply in_map_iff. exists N. split; [done|]. apply in_seq. lia.
    + apply startswith_iff. exists rest. by rewrite app_assoc_s.
Qed.

Lemma startswith_any_lower t :
  startswith_any prefixes t = true → startswith_any prefixes (lower t) = true.
Proof.
  unfold startswith_any. rewrite !existsb_exists.
  intros (p & Hp & Hs). exists p. split; [done|].
  apply startswith_iff in Hs as [rest ->]. apply startswith_iff.
  exists (lower rest). by rewrite lower_app, (prefixes_lower p Hp).
Qed.

(** The condition of lines 28-29 is the detection rule. *)
Lemma is_council_title_iff c :
  is_council_title (strip c) = true ↔ qualifies c.
Proof.
  unfold is_council_title, qualifies. rewrite strip_idem, literal_prefixes_generated.
  rewrite !andb_true_iff, orb_true_iff.
  rewrite !contains_lower_iff by reflexivity.
  rewrite <- startswith_any_prefixes. split.
  - by intros [[H _] H'].
  - intros [H H']. auto using startswith_any_lower.
Qed.

Lemma not_council_title_iff c :
  is_council_title (strip c) = false ↔ ¬ qualifies c.
Proof. rewrite <- is_council_title_iff. by destruct (is_council_title _). Qed.

(** A sheet of text cells is its own rendering. *)
Lemma astype_str_text_grid g : astype_str (text_grid g) = g.
Proof.
  unfold astype_str, text_grid. rewrite map_map.
  induction g as [|row g IH]; simpl; [done|]. rewrite IH. f_equal.
  rewrite map_map. simpl. apply map_id.
Qed.

(** The rule in the specification's words and the rule through [strip]. *)
Lemma detects_iff c t : detects c t ↔ qualifies c ∧ t = strip c.
Proof.
  unfold detects, qualifies. rewrite strip_trimmed. split.
  - by intros (-> & ? & ?).
  - by intros ((? & ?) & ->).
Qed.

Lemma qualifies_detects c : qualifies c ↔ ∃ t, detects c t.
Proof.
  split.
  - intros H. exists (strip c). by apply detects_iff.
  - by intros [t [H _]%detects_iff].
Qed.

(** *** The scan of one row and of the grid *)

Lemma scan_row_Some idx row sec :
  scan_row idx row = Some sec ↔
  ∃ pre c post, row = (pre ++ c :: post)%list
    ∧ Forall (fun x => ¬ qualifies x) pre ∧ qualifies c ∧ sec = (idx, strip c).
Proof.
  induction row as [|x row IH]; simpl.
  - split; [done|]. intros (pre & c & post & E & _). by destruct pre.
  - destruct (is_council_title (strip x)) eqn:Hx.
    + apply is_council_title_iff in Hx. split.
      * intros [= <-]. by exists [], x, row.
      * intros (pre & c & post & E & Hpre & Hc & ->).
        destruct pre as [|y pre]; simplify_eq/=; [done|].
        by apply Forall_cons in Hpre as [? _].
    + apply not_council_title_iff in Hx. rewrite IH. split.
      * intros (pre & c & post & -> & Hpre & Hc & ->).
        exists (x :: pre), c, post. split_and!; [done | by constructor | done..].
      * intros (pre & c & post & E & Hpre & Hc & ->).
        destruct pre as [|y pre]; simplify_eq/=; [done|].
        apply Forall_cons in Hpre as [_ Hpre]. by exists pre, c, post.
Qed.

Lemma scan_row_None idx row :
  scan_row idx row = None ↔ Forall (fun x => ¬ qualifies x) row.
Proof.
  induction row as [|x row IH]; simpl; [done|].
  destruct (is_council_title (strip x)) eqn:Hx.
  - apply is_council_title_iff in Hx. split; [done|].
    intros [? _]%Forall_cons. done.
  - apply not_council_title_iff in Hx. rewrite IH, Forall_cons. tauto.
Qed.

Lemma scan_row_Exists idx row :
  (∃ sec, scan_row idx row = Some sec) ↔ Exists qualifies row.
Proof.
  destruct (scan_row idx row) as [sec|] eqn:E.
  - split; [intros _ | by eauto].
    apply scan_row_Some in E as (pre & c & post & -> & _ & Hc & _).
    apply Exists_app. right. by left.
  - split; [by intros [? ?]|]. intros HE. apply scan_row_None in E.
    apply Exists_exists in HE as (x & Hx & Hq).
    rewrite Forall_forall in E. by destruct (E x Hx).
Qed.

Lemma find_sections_elem k rows idx title :
  (idx, title) ∈ find_sections k rows ↔
  ∃ i row, idx = (k + i)%nat ∧ rows !! i = Some row
    ∧ scan_row idx row = Some (idx, title).
Proof.
  revert k. induction rows as [|r rows IH]; intros k; simpl.
  - split; [by intros ?%elem_of_nil | by intros (i & row & _ & ? & _)].
  - assert (Hstep :
      (idx, title) ∈ find_sections (S k) rows ↔
      ∃ i row, idx = (k + S i)%nat ∧ (r :: rows) !! S i = Some row
        ∧ scan_row idx row = Some (idx, title)).
    { rewrite IH. split; intros (i & row & -> & ? & ?); exists i, row;
        split_and!; try done; lia. }
    destruct (scan_row k r) as [sec|] eqn:E.
    + rewrite elem_of_cons, Hstep. split.
      * intros [Heq | (i & row & -> & ? & ?)].
        -- subst sec. pose proof E as E'.
           apply scan_row_Some in E' as (? & ? & ? & _ & _ & _ & [= -> _]).
           exists 0%nat, r. by rewrite Nat.add_0_r.
        -- by exists (S i), row.
      * intros ([|i] & row & -> & Hl & Hs).
        -- left. simplify_eq/=. rewrite Nat.add_0_r in *. congruence.
        -- right. by exists i, row.
    + rewrite Hstep. split.
      * intros (i & row & -> & ? & ?). by exists (S i), row.
      * intros ([|i] & row & -> & Hl & Hs).
        -- simplify_eq/=. rewrite Nat.add_0_r in *. congruence.
        -- by exists i, row.
Qed.

Lemma find_sections_lower_bound k rows :
  Forall (fun i => (k ≤ i)%nat) (find_sections k rows).*1.
Proof.
  revert k. induction rows as [|r rows IH]; intros k; simpl; [constructor|].
  assert (Forall (fun i => (k ≤ i)%nat) (find_sections (S k) rows).*1).
  { eapply Forall_impl; [apply IH | simpl; lia]. }
  destruct (scan_row k r) as [sec|] eqn:E; [|done].
  apply scan_row_Some in E as (? & ? & ? & _ & _ & _ & ->).
  by constructor.
Qed.

Lemma find_sections_sorted k rows :
  StronglySorted lt (find_sections k rows).*1.
Proof.
  revert k. induction rows as [|r rows IH]; intros k; simpl; [constructor|].
  destruct (scan_row k r) as [sec|] eqn:E; [|done].
  apply scan_row_Some in E as (? & ? & ? & _ & _ & _ & ->).
  constructor; [done|]. simpl.
  eapply Forall_impl; [apply (find_sections_lower_bound (S k))|simpl; lia].
Qed.

(** ** One row *)

(** [int(float(s))] on a few cell texts: plain and fractional numerals,
    a numeral beyond 2^53, blanks and underscores, and the three ways to
    fail. *)
Example int_float_samples :
  map int_float
    ["1500"; "1500.0"; "2.9"; "-3"; " 12 "; "1_000"; "9007199254740993";
     "abc"; "NaN"; "inf"; "1e999"]
  = [Ok 1500; Ok 1500; Ok 2; Ok (-3); Ok 12; Ok 1000; Ok 9007199254740992;
     Raise ValueError; Raise ValueError; Raise OverflowError;
     Raise OverflowError].
Proof. reflexivity. Qed.

(** Beyond ASCII: a no-break space after the numeral is passed over, the
    Arabic-Indic digits of 1500 are read, and the separator FS (which
    [strip] removes) is not a blank for [float]. *)
Example int_float_beyond_ascii :
  map int_float
    [ "1500" ++ utf8 [194; 160]%N;
      utf8 [217; 161; 217; 165; 217; 160; 217; 160]%N;
      utf8 [28]%N ++ "5" ]
  = [Ok 1500; Ok 1500; Raise ValueError]
  ∧ strip (utf8 [28]%N ++ "5") = "5"
  ∧ strip nbsp_title = "1 - X COUNCIL".
Proof. by split_and!. Qed.

Lemma usable_not_nan x : usable x = true → String.eqb x "nan" = false.
Proof. unfold usable. by destruct (String.eqb x "nan"). Qed.

Lemma usable_not_empty x : usable x = true → x ≠ "".
Proof. unfold usable. intros H ->. by vm_compute in H. Qed.

Lemma usable_values_elem x row :
  x ∈ usable_values row ↔ usable x = true ∧ x ∈ row.
Proof. unfold usable_values. by rewrite list_elem_of_filter. Qed.

Lemma coerce_usable x : usable x = true → coerce x = int_float x.
Proof. intros H. unfold coerce. by rewrite (usable_not_nan _ H). Qed.

(** What a row with at least three usable values does (lines 69-84). *)
Lemma row_record_three row party v s tl :
  usable_values row = party :: v :: s :: tl →
  row_record row =
    try_except_value_index
      (rbind (int_float v) (fun votes =>
       rbind (int_float s) (fun seats =>
       if negb (String.eqb (upper party) "TOTAL")
       then Ok (Some (mkRec party votes seats))
       else Ok None)))
      (Ok None).
Proof.
  intros E. unfold row_record. rewrite E. simpl.
  assert (Hv : usable v = true).
  { apply (usable_values_elem v row). rewrite E. set_solver. }
  assert (Hs : usable s = true).
  { apply (usable_values_elem s row). rewrite E. set_solver. }
  by rewrite (coerce_usable _ Hv), (coerce_usable _ Hs).
Qed.

Lemma row_record_Some row r :
  row_record row = Ok (Some r) ↔
  ∃ v s tl, usable_values row = Party r :: v :: s :: tl
    ∧ int_float v = Ok (Votes r) ∧ int_float s = Ok (Seats r)
    ∧ upper (Party r) ≠ "TOTAL".
Proof.
  split.
  - intros H. destruct (usable_values row) as [|p [|v [|s tl]]] eqn:E;
      try (unfold row_record in H; rewrite E in H; simpl in H; discriminate).
    rewrite (row_record_three _ _ _ _ _ E) in H.
    destruct (int_float v) as [votes|[]] eqn:Hv; simpl in H; try discriminate.
    destruct (int_float s) as [seats|[]] eqn:Hs; simpl in H; try discriminate.
    destruct (String.eqb_spec (upper p) "TOTAL"); simpl in H; [discriminate|].
    injection H as <-. by exists v, s, tl.
  - intros (v & s & tl & E & Hv & Hs & Hp).
    rewrite (row_record_three _ _ _ _ _ E), Hv, Hs. simpl.
    destruct (String.eqb_spec (upper (Party r)) "TOTAL"); [done|].
    by destruct r.
Qed.

(** ** The rows of one section *)


Lemma collect_header acc pre h post :
  Forall (fun r => is_header_row r = false) pre →
  is_header_row h = true →
  collect false acc (pre ++ h :: post) = collect true acc post.
Proof.
  intros Hpre Hh. induction Hpre as [|r rows Hr _ IH]; simpl.
  - by rewrite Hh.
  - by rewrite Hr.
Qed.

Lemma collect_Forall (P : Rec → Prop) hf acc rows data :
  Forall P acc →
  (∀ row r, row ∈ rows → row_record row = Ok (Some r) → P r) →
  collect hf acc rows = Ok data → Forall P data.
Proof.
  revert hf acc. induction rows as [|row rows IH]; intros hf acc Hacc HP; simpl.
  - by intros [= <-].
  - assert (HP' : ∀ row' r, row' ∈ rows → row_record row' = Ok (Some r) → P r).
    { intros row' r Hin. apply HP. by right. }
    destruct (negb hf && is_header_row row); [by apply IH|].
    destruct hf; [|by apply IH].
    destruct (row_record row) as [[r|]|e] eqn:E; simpl; [| by apply IH | done].
    apply IH; [|done]. apply Forall_app. split; [done|].
    constructor; [|done]. apply (HP row); [by left | done].
Qed.

Lemma collect_keeps hf acc rows data x :
  collect hf acc rows = Ok data → x ∈ acc → x ∈ data.
Proof.
  revert hf acc. induction rows as [|row rows IH]; intros hf acc; simpl.
  - by intros [= <-].
  - destruct (negb hf && is_header_row row); [by apply IH|].
    destruct hf; [|by apply IH].
    destruct (row_record row) as [[r|]|e]; simpl; [| by apply IH | done].
    intros H Hx. apply (IH _ _ H). set_solver.
Qed.

Lemma collect_emits acc before row after r data :
  row_record row = Ok (Some r) →
  collect true acc (before ++ row :: after) = Ok data → r ∈ data.
Proof.
  intros Hr. revert acc.
  induction before as [|b before IH]; intros acc; simpl.
  - rewrite Hr. simpl. intros H. apply (collect_keeps _ _ _ _ _ H). set_solver.
  - destruct (row_record b) as [[rb|]|e]; simpl; [apply IH | apply IH | done].
Qed.

Lemma section_rows_subseteq df_str s e row :
  row ∈ section_rows df_str s e → row ∈ df_str.
Proof.
  unfold section_rows. intros H.
  apply list_elem_of_lookup in H as [i Hi].
  apply lookup_take_Some in Hi as [Hi _]. rewrite lookup_drop in Hi.
  by apply list_elem_of_lookup_2 in Hi.
Qed.

(** ** The loop over the sections *)

Lemma process_sections_run df_str sections councils_data ui :
  process_sections df_str sections councils_data ui =
  (Ok (stored df_str sections councils_data),
   (ui ++ failures df_str sections)%list).
Proof.
  revert councils_data ui.
  induction sections as [|[s name] rest IH]; intros cd ui; simpl.
  - unfold ret. by rewrite app_nil_r.
  - unfold bind, try_except, lift, ret, st_write, end_of in *.
    destruct (section_data_of df_str s _) as [data|e]; simpl.
    + by rewrite IH.
    + rewrite IH. by rewrite <- app_assoc.
Qed.

Lemma parse_election_data_run df ui :
  let df_str := astype_str df in
  let council_sections := find_sections 0 df_str in
  parse_election_data df ui =
  (Ok (stored df_str council_sections ∅),
   (ui ++ Found (length council_sections) council_sections.*2
       :: failures df_str council_sections)%list).
Proof.
  simpl. unfold parse_election_data, bind, st_write.
  rewrite process_sections_run. by rewrite <- app_assoc.
Qed.

Lemma stored_lookup_notin df_str sections councils_data name :
  name ∉ sections.*2 →
  stored df_str sections councils_data !! name = councils_data !! name.
Proof.
  revert councils_data.
  induction sections as [|[s n] rest IH]; intros cd Hn; simpl; [done|].
  simpl in Hn. apply not_elem_of_cons in Hn as [Hne Hn].
  rewrite (IH _ Hn). destruct (section_data_of _ _ _) as [[|r d]|e]; simpl;
    try done.
  by rewrite lookup_insert_ne.
Qed.

Lemma stored_cons df_str s name rest councils_data :
  stored df_str ((s, name) :: rest) councils_data =
  stored df_str rest
    match section_data_of df_str s (end_of df_str rest) with
    | Ok section_data => store_section name section_data councils_data
    | Raise _ => councils_data
    end.
Proof. reflexivity. Qed.

Lemma failures_cons df_str s name rest :
  failures df_str ((s, name) :: rest) =
  match section_data_of df_str s (end_of df_str rest) with
  | Ok _ => failures df_str rest
  | Raise e => Failed name e :: failures df_str rest
  end.
Proof. reflexivity. Qed.

Lemma stored_lookup_last df_str pre s name post councils_data r data :
  name ∉ post.*2 →
  section_data_of df_str s (end_of df_str post) = Ok (r :: data) →
  stored df_str (pre ++ (s, name) :: post) councils_data !! name =
    Some (positive_votes (r :: data)).
Proof.
  intros Hn Hd. revert councils_data.
  induction pre as [|[a b] pre IH]; intros cd.
  - rewrite app_nil_l, stored_cons, Hd, (stored_lookup_notin _ _ _ _ Hn).
    apply lookup_insert_eq.
  - rewrite <- app_comm_cons, stored_cons. apply IH.
Qed.

Lemma stored_tables (P : list Rec → Prop) df_str sections councils_data :
  (∀ s e data, section_data_of df_str s e = Ok data → P (positive_votes data)) →
  map_Forall (fun _ => P) councils_data →
  map_Forall (fun _ => P) (stored df_str sections councils_data).
Proof.
  intros HP. revert councils_data.
  induction sections as [|[s n] rest IH]; intros cd Hcd; simpl; [done|].
  apply IH. destruct (section_data_of _ _ _) as [[|r d]|e] eqn:E; simpl;
    try done.
  apply map_Forall_insert_2; [|done]. by apply (HP _ _ _ E).
Qed.

Lemma failures_elem df_str pre s name post e :
  section_data_of df_str s (end_of df_str post) = Raise e →
  Failed name e ∈ failures df_str (pre ++ (s, name) :: post).
Proof.
  intros He. induction pre as [|[a b] pre IH].
  - rewrite app_nil_l, failures_cons, He. by left.
  - rewrite <- app_comm_cons, failures_cons.
    destruct (section_data_of df_str a _); [done | by right].
Qed.

(** Every record of a section comes from a row of the grid. *)
Lemma section_data_records (P : Rec → Prop) df_str s e data :
  (∀ row r, row ∈ df_str → row_record row = Ok (Some r) → P r) →
  section_data_of df_str s e = Ok data → Forall P data.
Proof.
  intros HP. apply collect_Forall; [constructor|].
  intros row r Hrow. apply HP. by eapply section_rows_subseteq.
Qed.

Lemma positive_votes_Forall (P : Rec → Prop) table :
  Forall P table → Forall (fun r => P r ∧ 0 < Votes r) (positive_votes table).
Proof.
  intros H. apply Forall_forall. intros r Hr.
  apply list_elem_of_filter in Hr as [Hv Hr].
  split; [|done]. rewrite Forall_forall in H. by apply H.
Qed.

(** Every stored table holds records of rows of the grid, with positive
    votes. *)
Lemma parsed_records (P : Rec → Prop) df ui m title table i r :
  (∀ row r, row ∈ astype_str df → row_record row = Ok (Some r) → P r) →
  (parse_election_data df ui).1 = Ok m →
  m !! title = Some table → table !! i = Some r →
  P r ∧ 0 < Votes r.
Proof.
  intros HP Hm Ht Hr. rewrite parse_election_data_run in Hm.
  simpl in Hm. injection Hm as <-.
  eapply (stored_tables (Forall (fun r => P r ∧ 0 < Votes r))) in Ht.
  - rewrite Forall_lookup in Ht. by apply (Ht i).
  - intros s e data Hd. apply positive_votes_Forall.
    by eapply section_data_records.
  - apply map_Forall_empty.
Qed.

(** The table of a section whose rows build, in the returned mapping. *)
Lemma parsed_section_table df ui m pre s name post r data :
  (parse_election_data df ui).1 = Ok m →
  find_sections 0 (astype_str df) = (pre ++ (s, name) :: post)%list →
  name ∉ post.*2 →
  section_data_of (astype_str df) s (end_of (astype_str df) post)
    = Ok (r :: data) →
  m !! name = Some (positive_votes (r :: data)).
Proof.
  intros Hm Hsec Hn Hd. rewrite parse_election_data_run in Hm.
  simpl in Hm. injection Hm as <-. rewrite Hsec.
  by apply stored_lookup_last.
Qed.

(** ** The header test and plain concatenation *)


Lemma contains_cons w c s :
  contains w (String c s) = startswith w (String c s) || contains w s.
Proof. reflexivity. Qed.








(** ** The summary test and blanks *)

Lemma upper_char_plain c :
  low (upper_char c) && negb (isspace (upper_char c))
  = low c && negb (isspace c).
Proof. each_char c; reflexivity. Qed.

Lemma upper_TOTAL_strip p : upper p = "TOTAL" → strip p = p.
Proof.
  destruct p as [|c1 [|c2 [|c3 [|c4 [|c5 [|c6 p]]]]]]; try discriminate.
  intros [= H1 H2 H3 H4 H5].
  apply strip_by_plain; [apply isspace_low|]. simpl.
  rewrite <- (upper_char_plain c1), <- (upper_char_plain c2),
    <- (upper_char_plain c3), <- (upper_char_plain c4),
    <- (upper_char_plain c5).
  by rewrite H1, H2, H3, H4, H5.
Qed.

Lemma padded_TOTAL_kept party :
  strip party ≠ party → upper party ≠ "TOTAL".
Proof. intros Hne H. by apply Hne, upper_TOTAL_strip. Qed.

(** * The claims *)

(** ** Containment of failures *)

(** C8: an exception raised while one section's table is built is caught at
    that section: the call returns a mapping for every grid, the failure is
    written to the page under the section's title, and every section whose
    rows build (before or after a failing one) has its table in the mapping
    under its title, unless a later section reuses the title. *)
Theorem section_failures_are_contained (df : DataFrame) (ui : list diag) :
  let df_str := astype_str df in
  ∃ m, (parse_election_data df ui).1 = Ok m
    ∧ (∀ pre s name post e,
         find_sections 0 df_str = (pre ++ (s, name) :: post)%list →
         section_data_of df_str s (end_of df_str post) = Raise e →
         Failed name e ∈ (parse_election_data df ui).2)
    ∧ (∀ pre s name post r data,
         find_sections 0 df_str = (pre ++ (s, name) :: post)%list →
         name ∉ post.*2 →
         section_data_of df_str s (end_of df_str post) = Ok (r :: data) →
         m !! name = Some (positive_votes (r :: data))).
Proof.
  intros df_str. rewrite parse_election_data_run. fold df_str.
  eexists. split; [done|]. split.
  - intros pre s name post e Hsec He. simpl. rewrite Hsec.
    apply elem_of_app. right. right. by apply failures_elem.
  - intros pre s name post r data Hsec Hn Hd. rewrite Hsec.
    by apply stored_lookup_last.
Qed.

Lemma section_failures_are_contained_witness :
  ∃ m, (parse_election_data failing_then_clean_grid []).1 = Ok m
    ∧ Failed "1 - MANNAR URBAN COUNCIL" OverflowError
        ∈ (parse_election_data failing_then_clean_grid []).2
    ∧ m !! "2 - MANNAR PRADESHIYA SABHA" = Some [mkRec "SLFP" 800 1].
Proof.
  destruct (section_failures_are_contained failing_then_clean_grid [])
    as (m & Hm & Hfail & Hok).
  exists m. split; [exact Hm|]. split.
  - apply (Hfail [] 0%nat "1 - MANNAR URBAN COUNCIL"
             [(3%nat, "2 - MANNAR PRADESHIYA SABHA")] OverflowError);
      reflexivity.
  - apply (Hok [(0%nat, "1 - MANNAR URBAN COUNCIL")] 3%nat
             "2 - MANNAR PRADESHIYA SABHA" [] (mkRec "SLFP" 800 1) []).
    + reflexivity.
    + apply not_elem_of_nil.
    + reflexivity.
Defined.

(** ** Scenario A *)

(** C5: on the grid of Scenario A, 8 rows of 4 columns, the parser returns
    exactly the two tables of the expected ResultSet, records in sheet order
    and the TOTAL row left out. *)
Theorem scenario_A_result (ui : list diag) :
  length scenario_A = 8%nat
  ∧ Forall (fun row => length row = 4%nat) scenario_A
  ∧ (parse_election_data scenario_A ui).1 = Ok scenario_A_expected.
Proof.
  split; [reflexivity|]. split; [by repeat constructor|].
  by rewrite parse_election_data_run.
Qed.

(** ** Section detection *)

(** C7: a row is recorded as a section start exactly when one of its cells
    is detected, that is, when the cell without the blanks at its two ends
    starts with "N -" for some N in 1..23 and holds "council" or "sabha" up
    to case; the recorded title is that trimmed text of the first detected
    cell of the row, in column order; and the sections come in strictly
    ascending row order. *)
Theorem section_detector_rule (df : DataFrame) :
  let df_str := astype_str df in
  let council_sections := find_sections 0 df_str in
  (∀ idx row, df_str !! idx = Some row →
     (∃ title, (idx, title) ∈ council_sections)
     ↔ Exists (fun c => ∃ t, detects c t) row)
  ∧ (∀ idx title, (idx, title) ∈ council_sections ↔
       ∃ pre c post, df_str !! idx = Some (pre ++ c :: post)%list
         ∧ Forall (fun x => ¬ ∃ t, detects x t) pre ∧ detects c title)
  ∧ StronglySorted lt council_sections.*1.
Proof.
  intros df_str council_sections.
  assert (Hsec : ∀ idx title, (idx, title) ∈ council_sections ↔
       ∃ pre c post, df_str !! idx = Some (pre ++ c :: post)%list
         ∧ Forall (fun x => ¬ ∃ t, detects x t) pre ∧ detects c title).
  { intros idx title. unfold council_sections. rewrite find_sections_elem.
    split.
    - intros (i & row & -> & Hrow & Hscan). simpl in Hrow.
      apply scan_row_Some in Hscan as (pre & c & post & -> & Hpre & Hc & [= ->]).
      exists pre, c, post. split_and!; [done| |by apply detects_iff].
      eapply Forall_impl; [exact Hpre|]. intros x Hx. by rewrite <- qualifies_detects.
    - intros (pre & c & post & Hrow & Hpre & [Hc ->]%detects_iff).
      exists idx, (pre ++ c :: post)%list. split_and!; [done..|].
      apply scan_row_Some. exists pre, c, post. split_and!; [done| |done..].
      eapply Forall_impl; [exact Hpre|]. intros x Hx. by rewrite qualifies_detects. }
  split_and!; [|exact Hsec|apply find_sections_sorted].
  intros idx row Hrow.
  assert (HE : Exists (fun c => ∃ t, detects c t) row ↔ Exists qualifies row).
  { rewrite !Exists_exists. by setoid_rewrite qualifies_detects. }
  rewrite HE, <- (scan_row_Exists idx). split.
  - intros [title (pre & c & post & Hrow' & Hpre & [Hc ->]%detects_iff)%Hsec].
    exists (idx, strip c). apply scan_row_Some.
    exists pre, c, post. split_and!; [congruence| |done..].
    eapply Forall_impl; [exact Hpre|]. intros x Hx. by rewrite qualifies_detects.
  - intros [sec Hscan].
    apply scan_row_Some in Hscan as (pre & c & post & -> & Hpre & Hc & ->).
    exists (strip c). apply Hsec. exists pre, c, post.
    split_and!; [done| |by apply detects_iff].
    eapply Forall_impl; [exact Hpre|]. intros x Hx. by rewrite <- qualifies_detects.
Qed.

Lemma section_detector_rule_witness :
  (0%nat, "1 - X COUNCIL") ∈ find_sections 0 (astype_str nbsp_title_grid).
Proof.
  apply (proj1 (proj2 (section_detector_rule nbsp_title_grid))).
  exists [], nbsp_title, [""; ""].
  split; [reflexivity|]. split; [constructor|].
  apply detects_iff. split; [|reflexivity].
  apply is_council_title_iff. reflexivity.
Defined.

(** ** Records *)

(** C4: every record of every table of the returned mapping has votes
    greater than 0, and its party is not "TOTAL" up to case. *)
Theorem votes_positive_party_not_total
    (df : DataFrame) (ui : list diag) (m : ResultSet)
    (title : string) (table : list Rec) (i : nat) (r : Rec) :
  (parse_election_data df ui).1 = Ok m →
  m !! title = Some table →
  table !! i = Some r →
  0 < Votes r ∧ ¬ eq_ci (Party r) "TOTAL".
Proof.
  intros Hm Ht Hr.
  destruct (parsed_records (fun r => ¬ eq_ci (Party r) "TOTAL")
              df ui m title table i r) as [Hp Hv]; try done.
  intros row r' _ (v & s & tl & _ & _ & _ & Hp)%row_record_Some Hci.
  apply Hp. by apply (upper_eq_iff_lower_eq (Party r') "TOTAL").
Qed.

Lemma votes_positive_party_not_total_witness :
  0 < 1000 ∧ ¬ eq_ci "SLPP" "TOTAL".
Proof.
  apply (votes_positive_party_not_total scenario_A [] scenario_A_expected
           "1 - MANNAR URBAN COUNCIL"
           [mkRec "UNP" 1500 2; mkRec "SLPP" 1000 1] 1 (mkRec "SLPP" 1000 1));
    reflexivity.
Defined.

(** C2, as the code has it: every record of every table of the returned
    mapping has a non-empty party, which is the first usable cell text of a
    row of the grid as it stands there (blanks around it are kept); its
    votes and seats are the integers read from the next two usable cells,
    the votes not negative, the seats of either sign. *)
Theorem record_shape
    (df : DataFrame) (ui : list diag) (m : ResultSet)
    (title : string) (table : list Rec) (i : nat) (r : Rec) :
  (parse_election_data df ui).1 = Ok m →
  m !! title = Some table →
  table !! i = Some r →
  Party r ≠ ""
  ∧ 0 ≤ Votes r
  ∧ ∃ row v s tl, row ∈ astype_str df
      ∧ usable_values row = Party r :: v :: s :: tl
      ∧ int_float v = Ok (Votes r) ∧ int_float s = Ok (Seats r).
Proof.
  intros Hm Ht Hr.
  destruct (parsed_records
              (fun r => Party r ≠ ""
                 ∧ ∃ row v s tl, row ∈ astype_str df
                     ∧ usable_values row = Party r :: v :: s :: tl
                     ∧ int_float v = Ok (Votes r)
                     ∧ int_float s = Ok (Seats r))
              df ui m title table i r) as [[Hp Hc] Hv]; try done.
  - intros row r' Hrow (v & s & tl & E & Hv & Hs & _)%row_record_Some. split.
    + apply usable_not_empty. apply (usable_values_elem _ row).
      rewrite E. by left.
    + by exists row, v, s, tl.
  - split_and!; [done | lia | done].
Qed.

Lemma record_shape_witness :
  " UNP " ≠ ""
  ∧ 0 ≤ 1500
  ∧ ∃ row v s tl, row ∈ astype_str padded_party_grid
      ∧ usable_values row = " UNP " :: v :: s :: tl
      ∧ int_float v = Ok 1500 ∧ int_float s = Ok (-2).
Proof.
  apply (record_shape padded_party_grid []
           {[ "1 - MANNAR URBAN COUNCIL" := [mkRec " UNP " 1500 (-2)] ]}
           "1 - MANNAR URBAN COUNCIL" [mkRec " UNP " 1500 (-2)] 0
           (mkRec " UNP " 1500 (-2))); reflexivity.
Defined.

(** C2 as stated fails: on [padded_party_grid] the stored record keeps the
    blanks around its party and has negative seats. *)
Lemma record_not_well_formed :
  ∃ m table r,
    (parse_election_data padded_party_grid []).1 = Ok m
    ∧ m !! "1 - MANNAR URBAN COUNCIL" = Some table
    ∧ table !! 0%nat = Some r
    ∧ strip (Party r) ≠ Party r ∧ Seats r < 0 ∧ ¬ well_formed r.
Proof.
  exists {[ "1 - MANNAR URBAN COUNCIL" := [mkRec " UNP " 1500 (-2)] ]},
    [mkRec " UNP " 1500 (-2)], (mkRec " UNP " 1500 (-2)).
  split_and!; try reflexivity.
  - discriminate.
  - intros (_ & H & _). discriminate H.
Qed.

(** ** The header row *)




(** ** Summary rows *)

(** C10, as the code has it: in a section whose rows raise nothing and whose
    title no later section reuses, a row after the header whose first usable
    value is "TOTAL" with blanks around it, and whose next two usable values
    are a parsable positive votes count and a parsable seats count, is in
    the section's table as a record; and among rows with three usable values
    and parsable counts, exactly those whose first usable value equals
    "TOTAL" up to case emit nothing. *)
Theorem padded_total_is_emitted
    (df : DataFrame) (ui : list diag) (m : ResultSet)
    (pre post : list (nat * string)) (s : nat) (name : string)
    (before_header before after : list Row) (header row : Row)
    (party v st : string) (tl : list string) (votes seats : Z)
    (data : list Rec) :
  let df_str := astype_str df in
  (parse_election_data df ui).1 = Ok m →
  find_sections 0 df_str = (pre ++ (s, name) :: post)%list →
  name ∉ post.*2 →
  section_rows df_str s (end_of df_str post)
    = (before_header ++ header :: before ++ row :: after)%list →
  Forall (fun r => is_header_row r = false) before_header →
  is_header_row header = true →
  section_data_of df_str s (end_of df_str post) = Ok data →
  usable_values row = party :: v :: st :: tl →
  strip party ≠ party → eq_ci (strip party) "TOTAL" →
  int_float v = Ok votes → 0 < votes → int_float st = Ok seats →
  (∃ table, m !! name = Some table ∧ mkRec party votes seats ∈ table)
  ∧ (∀ row' party' v' st' tl' votes' seats',
       usable_values row' = party' :: v' :: st' :: tl' →
       int_float v' = Ok votes' → int_float st' = Ok seats' →
       row_record row' = Ok None ↔ eq_ci party' "TOTAL").
Proof.
  intros df_str Hm Hsec Hn Hrows Hbefore Hheader Hdata Hrow Hpad _ Hv Hpos Hst.
  split.
  - assert (Hrec : row_record row = Ok (Some (mkRec party votes seats))).
    { apply row_record_Some. exists v, st, tl. split_and!; try done.
      by apply padded_TOTAL_kept. }
    assert (Hin : mkRec party votes seats ∈ data).
    { unfold section_data_of in Hdata. rewrite Hrows in Hdata.
      rewrite (collect_header _ _ _ _ Hbefore Hheader) in Hdata.
      by apply (collect_emits _ _ _ _ _ _ Hrec Hdata). }
    destruct data as [|r0 data]; [by apply elem_of_nil in Hin|].
    exists (positive_votes (r0 :: data)). split.
    + by apply (parsed_section_table df ui m pre s name post).
    + apply list_elem_of_filter. by split.
  - intros row' party' v' st' tl' votes' seats' E Hv' Hst'.
    rewrite (row_record_three _ _ _ _ _ E), Hv', Hst'. simpl.
    unfold eq_ci. rewrite <- upper_eq_iff_lower_eq.
    change (upper "TOTAL") with "TOTAL".
    by destruct (String.eqb_spec (upper party') "TOTAL").
Qed.

Lemma padded_total_is_emitted_witness :
  ∃ table,
    ({[ "1 - MANNAR URBAN COUNCIL" :=
          [mkRec "UNP" 1500 2; mkRec " TOTAL " 2500 3] ]} : ResultSet)
      !! "1 - MANNAR URBAN COUNCIL" = Some table
    ∧ mkRec " TOTAL " 2500 3 ∈ table.
Proof.
  apply (proj1 (padded_total_is_emitted padded_total_grid []
           {[ "1 - MANNAR URBAN COUNCIL" :=
                [mkRec "UNP" 1500 2; mkRec " TOTAL " 2500 3] ]}
           [] [] 0%nat "1 - MANNAR URBAN COUNCIL"
           [] [ ["UNP"; "1500"; "2"] ] [] ["Party"; "Votes"; "Total"]
           [" TOTAL "; "2500"; "3"] " TOTAL " "2500" "3" [] 2500 3
           [mkRec "UNP" 1500 2; mkRec " TOTAL " 2500 3]
           eq_refl eq_refl (not_elem_of_nil _) eq_refl
           (Forall_nil_2 _) eq_refl eq_refl eq_refl
           ltac:(discriminate) eq_refl eq_refl eq_refl eq_refl)).
Defined.

(** C10 as stated fails: on [padded_total_bad_seats_grid] the row whose
    party cell is " TOTAL " has parsable positive votes, yet it emits no
    record, its seats cell being no number. *)
Lemma padded_total_unparsable_seats :
  usable_values [" TOTAL "; "2500"; "x"] = [" TOTAL "; "2500"; "x"]
  ∧ strip " TOTAL " ≠ " TOTAL " ∧ eq_ci (strip " TOTAL ") "TOTAL"
  ∧ int_float "2500" = Ok 2500
  ∧ row_record [" TOTAL "; "2500"; "x"] = Ok None
  ∧ (parse_election_data padded_total_bad_seats_grid []).1 = Ok ∅.
Proof. split_and!; try reflexivity. discriminate. Qed.

(** ** Where the code departs from its own intent *)

(** C1: on [zero_votes_grid] the only record of the section has zero votes;
    the guard of line 87 looks at the rows before the filter of line 91, so
    the title is stored with an empty table. *)
Theorem zero_vote_section_is_stored (ui : list diag) :
  section_data_of (astype_str zero_votes_grid) 0 3 = Ok [mkRec "UNP" 0 0]
  ∧ positive_votes [mkRec "UNP" 0 0] = []
  ∧ (parse_election_data zero_votes_grid ui).1
    = Ok {[ "1 - MANNAR URBAN COUNCIL" := [] ]}.
Proof.
  split_and!; [reflexivity..|]. by rewrite parse_election_data_run.
Qed.

(** C3: a row with fewer than three usable values, and a row whose votes or
    seats raise [ValueError], leave the section as it is and the rows after
    them are read; but on [infinite_votes_grid] the row whose votes cell is
    "inf" raises [OverflowError], which the handler of line 82 does not
    catch: the section is given up and the clean row after it is lost. *)
Theorem infinite_votes_abort_section (ui : list diag) :
  (∀ row, (length (usable_values row) < 3)%nat → row_record row = Ok None)
  ∧ (parse_election_data unparsable_votes_grid ui).1
    = Ok {[ "1 - MANNAR URBAN COUNCIL" := [mkRec "SLPP" 1000 1] ]}
  ∧ row_record ["UNP"; "inf"; "2"] = Raise OverflowError
  ∧ row_record ["SLPP"; "1000"; "1"] = Ok (Some (mkRec "SLPP" 1000 1))
  ∧ parse_election_data infinite_votes_grid ui
    = (Ok ∅,
       (ui ++ [Found 1 ["1 - MANNAR URBAN COUNCIL"];
               Failed "1 - MANNAR URBAN COUNCIL" OverflowError])%list).
Proof.
  split_and!; try reflexivity.
  - intros row Hlen. unfold row_record.
    destruct (Nat.leb_spec 3 (length (usable_values row))); [lia | done].
  - rewrite parse_election_data_run. reflexivity.
Qed.

(** * Further properties of the parser *)

(** ** Section spans *)

Lemma find_sections_in_range k rows idx title :
  (idx, title) ∈ find_sections k rows → (k ≤ idx < k + length rows)%nat.
Proof.
  intros (i & row & -> & Hrow & _)%find_sections_elem.
  apply lookup_lt_Some in Hrow. lia.
Qed.

Lemma sorted_app_cons_lt (pre : list nat) x post :
  StronglySorted lt (pre ++ x :: post) →
  Forall (fun i => (i < x)%nat) pre ∧ Forall (fun i => (x < i)%nat) post.
Proof.
  induction pre as [|p pre IH]; simpl; intros H.
  - apply StronglySorted_inv in H as [_ H]. by split.
  - apply StronglySorted_inv in H as [Hs Hp].
    destruct (IH Hs) as [H1 H2]. split; [|done].
    constructor; [|done].
    rewrite Forall_app, Forall_cons in Hp. tauto.
Qed.

Lemma end_of_bounds df_str pre s name post :
  find_sections 0 df_str = (pre ++ (s, name) :: post)%list →
  (s < end_of df_str post ≤ length df_str)%nat.
Proof.
  intros Hsec.
  assert (Hs : (s < length df_str)%nat).
  { assert (Hin : (s, name) ∈ find_sections 0 df_str)
      by (rewrite Hsec; set_solver).
    apply find_sections_in_range in Hin. lia. }
  destruct post as [|[e n] post]; simpl; [lia|].
  assert (Hin : (e, n) ∈ find_sections 0 df_str)
    by (rewrite Hsec; set_solver).
  apply find_sections_in_range in Hin.
  pose proof (find_sections_sorted 0 df_str) as Hsorted.
  rewrite Hsec, fmap_app, fmap_cons in Hsorted. simpl in Hsorted.
  apply sorted_app_cons_lt in Hsorted as [_ Hpost].
  apply Forall_cons in Hpost as [? _]. lia.
Qed.

Lemma sections_gap df_str pre s name post i t :
  find_sections 0 df_str = (pre ++ (s, name) :: post)%list →
  (i, t) ∈ find_sections 0 df_str →
  (i < s ∨ i = s ∨ end_of df_str post ≤ i)%nat.
Proof.
  intros Hsec Hin.
  pose proof (find_sections_sorted 0 df_str) as Hsorted.
  rewrite Hsec in Hin. apply elem_of_app in Hin as [Hin|Hin].
  - left. rewrite Hsec, fmap_app, fmap_cons in Hsorted.
    apply sorted_app_cons_lt in Hsorted as [Hpre _].
    rewrite Forall_forall in Hpre. apply Hpre.
    apply list_elem_of_fmap. by exists (i, t).
  - apply elem_of_cons in Hin as [[= -> _]|Hin]; [by right; left|].
    right. right. destruct post as [|[e' n'] post].
    { by apply elem_of_nil in Hin. }
    simpl. apply elem_of_cons in Hin as [[= -> _]|Hin]; [done|].
    rewrite Hsec, (cons_middle (s, name)), app_assoc in Hsorted.
    rewrite fmap_app, fmap_cons in Hsorted.
    apply sorted_app_cons_lt in Hsorted as [_ Hpost].
    rewrite Forall_forall in Hpost.
    assert (e' < i)%nat; [|lia]. apply Hpost.
    apply list_elem_of_fmap. by exists (i, t).
Qed.

(** The rows a section reads are all in the frame: the positions
    [start_idx .. end_idx - 1] given to [df_str.iloc] exist, the span is not
    empty, and no row strictly inside it holds a section title. *)
Theorem section_span_in_frame (df : DataFrame)
    (pre post : list (nat * string)) (s : nat) (name : string) :
  let df_str := astype_str df in
  let e := end_of df_str post in
  find_sections 0 df_str = (pre ++ (s, name) :: post)%list →
  (s < e ≤ length df_str)%nat
  ∧ length (section_rows df_str s e) = (e - s - 1)%nat
  ∧ (∀ i, (s ≤ i < e)%nat → is_Some (df_str !! i))
  ∧ (∀ i row, (s < i < e)%nat → df_str !! i = Some row →
       Forall (fun c => ¬ qualifies c) row).
Proof.
  intros df_str e Hsec.
  pose proof (end_of_bounds _ _ _ _ _ Hsec) as Hb. fold e in Hb.
  split_and!; [lia.. | | |].
  - unfold section_rows. rewrite length_take, length_drop. lia.
  - intros i Hi. apply lookup_lt_is_Some. lia.
  - intros i row Hi Hrow. apply (scan_row_None i).
    destruct (scan_row i row) as [[i' t]|] eqn:Hscan; [|done]. exfalso.
    assert (i' = i) as ->.
    { apply scan_row_Some in Hscan as (? & ? & ? & _ & _ & _ & [= -> _]).
      done. }
    assert (Hin : (i, t) ∈ find_sections 0 df_str).
    { apply find_sections_elem. by exists i, row. }
    pose proof (sections_gap _ _ _ _ _ _ _ Hsec Hin). fold e in H. lia.
Qed.

Lemma section_span_in_frame_witness :
  (0 < 5 ≤ length (astype_str scenario_A))%nat
  ∧ length (section_rows (astype_str scenario_A) 0 5) = (5 - 0 - 1)%nat
  ∧ (∀ i, (0 ≤ i < 5)%nat → is_Some (astype_str scenario_A !! i))
  ∧ (∀ i row, (0 < i < 5)%nat → astype_str scenario_A !! i = Some row →
       Forall (fun c => ¬ qualifies c) row).
Proof.
  apply (section_span_in_frame scenario_A [] [(5%nat, "2 - MANNAR PRADESHIYA SABHA")]
           0%nat "1 - MANNAR URBAN COUNCIL").
  reflexivity.
Defined.

(** ** The table of a section *)

Lemma collect_true_Ok acc rows data :
  collect true acc rows = Ok data → data = (acc ++ emitted rows)%list.
Proof.
  revert acc. induction rows as [|row rows IH]; intros acc; simpl.
  - intros [= <-]. by rewrite app_nil_r.
  - unfold emitted. simpl. fold (emitted rows).
    destruct (row_record row) as [[r|]|e]; simpl; [| apply IH | done].
    intros H. apply IH in H. by rewrite <- app_assoc in H.
Qed.

Lemma collect_Raise hf acc rows e :
  collect hf acc rows = Raise e →
  ∃ row, row ∈ rows ∧ row_record row = Raise e.
Proof.
  revert hf acc. induction rows as [|row rows IH]; intros hf acc; simpl;
    [done|].
  assert (Hrec : ∀ hf' acc', collect hf' acc' rows = Raise e →
            ∃ row', row' ∈ row :: rows ∧ row_record row' = Raise e).
  { intros hf' acc' H. destruct (IH _ _ H) as (row' & ? & ?).
    exists row'. split; [by right | done]. }
  destruct (negb hf && is_header_row row); [by apply Hrec|].
  destruct hf; [|by apply Hrec].
  destruct (row_record row) as [[r|]|e'] eqn:E; simpl;
    [by apply Hrec | by apply Hrec |].
  intros [= ->]. exists row. split; [by left | done].
Qed.

Lemma emitted_length rows : (length (emitted rows) ≤ length rows)%nat.
Proof.
  induction rows as [|row rows IH]; simpl; [done|].
  unfold emitted. simpl. fold (emitted rows).
  destruct (row_record row) as [[r|]|e]; simpl; lia.
Qed.

Lemma positive_votes_length table :
  (length (positive_votes table) ≤ length table)%nat.
Proof. apply length_filter. Qed.

(** The table of a section whose rows raise nothing holds, in row order,
    the positive-vote records of the rows after the first header row, and
    nothing else; it has at most as many records as there are such rows. *)
Theorem section_table_in_row_order
    (df : DataFrame) (ui : list diag) (m : ResultSet)
    (pre post : list (nat * string)) (s : nat) (name : string)
    (before after : list Row) (header : Row) (data : list Rec) :
  let df_str := astype_str df in
  (parse_election_data df ui).1 = Ok m →
  find_sections 0 df_str = (pre ++ (s, name) :: post)%list →
  name ∉ post.*2 →
  section_rows df_str s (end_of df_str post)
    = (before ++ header :: after)%list →
  Forall (fun r => is_header_row r = false) before →
  is_header_row header = true →
  section_data_of df_str s (end_of df_str post) = Ok data →
  data = emitted after
  ∧ (data ≠ [] → m !! name = Some (positive_votes (emitted after)))
  ∧ (length (positive_votes (emitted after)) ≤ length after)%nat.
Proof.
  intros df_str Hm Hsec Hn Hrows Hbefore Hheader Hdata.
  assert (Hd : data = emitted after).
  { unfold section_data_of in Hdata. rewrite Hrows in Hdata.
    rewrite (collect_header _ _ _ _ Hbefore Hheader) in Hdata.
    by apply collect_true_Ok in Hdata. }
  split_and!; [done | |].
  - intros Hne. subst data. destruct (emitted after) as [|r d] eqn:E; [done|].
    by apply (parsed_section_table df ui m pre s name post).
  - etrans; [apply positive_votes_length | apply emitted_length].
Qed.

Lemma section_table_in_row_order_witness :
  [mkRec "UNP" 1500 2; mkRec "SLPP" 1000 1] = emitted scenario_A_first_rows
  ∧ ([mkRec "UNP" 1500 2; mkRec "SLPP" 1000 1] ≠ [] →
     scenario_A_expected !! "1 - MANNAR URBAN COUNCIL"
     = Some (positive_votes (emitted scenario_A_first_rows)))
  ∧ (length (positive_votes (emitted scenario_A_first_rows))
     ≤ length scenario_A_first_rows)%nat.
Proof.
  apply (section_table_in_row_order scenario_A [] scenario_A_expected
           [] [(5%nat, "2 - MANNAR PRADESHIYA SABHA")] 0%nat
           "1 - MANNAR URBAN COUNCIL" [] scenario_A_first_rows
           ["Party"; "Votes"; "Total"; ""]);
    try reflexivity.
  - simpl. apply not_elem_of_cons. split; [discriminate | apply not_elem_of_nil].
  - constructor.
Defined.

(** ** The lines written to the page *)




(** ** The keys of the mapping *)

Lemma stored_lookup_inv df_str sections councils_data t table :
  stored df_str sections councils_data !! t = Some table →
  councils_data !! t = Some table
  ∨ ∃ pre s post r data,
      sections = (pre ++ (s, t) :: post)%list
      ∧ section_data_of df_str s (end_of df_str post) = Ok (r :: data)
      ∧ table = positive_votes (r :: data).
Proof.
  revert councils_data.
  induction sections as [|[s n] rest IH]; intros cd; [by left|].
  rewrite stored_cons. intros [H|H]%IH.
  - destruct (section_data_of df_str s (end_of df_str rest))
      as [[|r d]|e] eqn:E; simpl in H; [by left | | by left].
    destruct (decide (n = t)) as [->|Hne].
    + rewrite lookup_insert_eq in H. injection H as <-.
      right. by exists [], s, rest, r, d.
    + rewrite lookup_insert_ne in H by done. by left.
  - destruct H as (pre & s0 & post & r & d & -> & ? & ?).
    right. by exists ((s, n) :: pre), s0, post, r, d.
Qed.

Lemma stored_lookup_mono df_str sections councils_data t :
  is_Some (councils_data !! t) →
  is_Some (stored df_str sections councils_data !! t).
Proof.
  revert councils_data.
  induction sections as [|[s n] rest IH]; intros cd H; [done|].
  rewrite stored_cons. apply IH.
  destruct (section_data_of _ _ _) as [[|r d]|e]; simpl; try done.
  destruct (decide (n = t)) as [->|Hne].
  - rewrite lookup_insert_eq. by eexists.
  - by rewrite lookup_insert_ne.
Qed.

Lemma stored_lookup_section df_str pre s t post councils_data r data :
  section_data_of df_str s (end_of df_str post) = Ok (r :: data) →
  is_Some (stored df_str (pre ++ (s, t) :: post) councils_data !! t).
Proof.
  intros Hd. revert councils_data.
  induction pre as [|[a b] pre IH]; intros cd.
  - rewrite app_nil_l, stored_cons, Hd. apply stored_lookup_mono.
    simpl. rewrite lookup_insert_eq. by eexists.
  - rewrite <- app_comm_cons, stored_cons. apply IH.
Qed.

Lemma stored_lookup_quiet df_str post councils_data name :
  (∀ post1 s' post2 r d, post = (post1 ++ (s', name) :: post2)%list →
     section_data_of df_str s' (end_of df_str post2) ≠ Ok (r :: d)) →
  stored df_str post councils_data !! name = councils_data !! name.
Proof.
  revert councils_data.
  induction post as [|[a b] rest IH]; intros cd Hq; [done|].
  rewrite stored_cons, IH.
  - destruct (section_data_of df_str a (end_of df_str rest))
      as [[|r d]|e] eqn:E; simpl; try done.
    destruct (decide (b = name)) as [->|Hne].
    + by destruct (Hq [] a rest r d).
    + by rewrite lookup_insert_ne.
  - intros post1 s' post2 r d ->.
    by apply (Hq ((a, b) :: post1)).
Qed.

Lemma section_title_trimmed k rows idx title :
  (idx, title) ∈ find_sections k rows →
  strip title = title ∧ qualifies title.
Proof.
  intros (i & row & _ & _ & Hscan)%find_sections_elem.
  apply scan_row_Some in Hscan as (pre & c & post & _ & _ & Hc & [= ->]).
  split; [apply strip_idem|].
  unfold qualifies in *. by rewrite !strip_idem.
Qed.

(** A title is a key of the returned mapping exactly when some detected
    section under that title builds at least one record; every key is
    trimmed text that meets the detection rule, and its table is the
    filtered record list of such a section. *)
Theorem result_keys
    (df : DataFrame) (ui : list diag) (m : ResultSet) (title : string) :
  let df_str := astype_str df in
  (parse_election_data df ui).1 = Ok m →
  (is_Some (m !! title) ↔
     ∃ pre s post r data,
       find_sections 0 df_str = (pre ++ (s, title) :: post)%list
       ∧ section_data_of df_str s (end_of df_str post) = Ok (r :: data))
  ∧ (is_Some (m !! title) → strip title = title ∧ qualifies title)
  ∧ (∀ table, m !! title = Some table →
       ∃ pre s post r data,
         find_sections 0 df_str = (pre ++ (s, title) :: post)%list
         ∧ section_data_of df_str s (end_of df_str post) = Ok (r :: data)
         ∧ table = positive_votes (r :: data)).
Proof.
  intros df_str Hm. rewrite parse_election_data_run in Hm.
  simpl in Hm. injection Hm as <-. fold df_str.
  assert (Hinv : ∀ table,
    stored df_str (find_sections 0 df_str) ∅ !! title = Some table →
    ∃ pre s post r data,
      find_sections 0 df_str = (pre ++ (s, title) :: post)%list
      ∧ section_data_of df_str s (end_of df_str post) = Ok (r :: data)
      ∧ table = positive_votes (r :: data)).
  { intros table [H|H]%stored_lookup_inv; [|done].
    by rewrite lookup_empty in H. }
  split_and!; [split | | done].
  - intros [table (pre & s & post & r & d & ? & ? & _)%Hinv].
    by exists pre, s, post, r, d.
  - intros (pre & s & post & r & d & -> & Hd).
    by apply (stored_lookup_section _ _ _ _ _ _ r d).
  - intros [table (pre & s & post & r & d & Hsec & _ & _)%Hinv].
    apply (section_title_trimmed 0 df_str s). rewrite Hsec.
    apply elem_of_app. right. by left.
Qed.

Lemma result_keys_witness :
  (is_Some (scenario_A_expected !! "2 - MANNAR PRADESHIYA SABHA") ↔
     ∃ pre s post r data,
       find_sections 0 (astype_str scenario_A)
         = (pre ++ (s, "2 - MANNAR PRADESHIYA SABHA") :: post)%list
       ∧ section_data_of (astype_str scenario_A) s
           (end_of (astype_str scenario_A) post) = Ok (r :: data))
  ∧ (is_Some (scenario_A_expected !! "2 - MANNAR PRADESHIYA SABHA") →
     strip "2 - MANNAR PRADESHIYA SABHA" = "2 - MANNAR PRADESHIYA SABHA"
     ∧ qualifies "2 - MANNAR PRADESHIYA SABHA")
  ∧ (∀ table,
       scenario_A_expected !! "2 - MANNAR PRADESHIYA SABHA" = Some table →
       ∃ pre s post r data,
         find_sections 0 (astype_str scenario_A)
           = (pre ++ (s, "2 - MANNAR PRADESHIYA SABHA") :: post)%list
         ∧ section_data_of (astype_str scenario_A) s
             (end_of (astype_str scenario_A) post) = Ok (r :: data)
         ∧ table = positive_votes (r :: data)).
Proof.
  apply (result_keys scenario_A [] scenario_A_expected
           "2 - MANNAR PRADESHIYA SABHA").
  reflexivity.
Defined.

(** Under a repeated title the table is that of the last section that
    builds at least one record: a later section under the same title that
    is given up, or builds no record, leaves the earlier table in place. *)
Theorem last_storing_section_wins
    (df : DataFrame) (ui : list diag) (m : ResultSet)
    (pre post : list (nat * string)) (s : nat) (name : string)
    (r : Rec) (data : list Rec) :
  let df_str := astype_str df in
  (parse_election_data df ui).1 = Ok m →
  find_sections 0 df_str = (pre ++ (s, name) :: post)%list →
  section_data_of df_str s (end_of df_str post) = Ok (r :: data) →
  (∀ post1 s' post2 r' d', post = (post1 ++ (s', name) :: post2)%list →
     section_data_of df_str s' (end_of df_str post2) ≠ Ok (r' :: d')) →
  m !! name = Some (positive_votes (r :: data)).
Proof.
  intros df_str Hm Hsec Hd Hq. rewrite parse_election_data_run in Hm.
  simpl in Hm. injection Hm as <-. fold df_str. rewrite Hsec. clear Hsec.
  generalize (∅ : ResultSet). induction pre as [|[a b] pre IH]; intros cd.
  - rewrite app_nil_l, stored_cons, Hd, (stored_lookup_quiet _ _ _ _ Hq).
    apply lookup_insert_eq.
  - rewrite <- app_comm_cons, stored_cons. apply IH.
Qed.

Lemma last_storing_section_wins_witness :
  ({[ "1 - MANNAR URBAN COUNCIL" := [mkRec "UNP" 1500 2] ]} : ResultSet)
    !! "1 - MANNAR URBAN COUNCIL"
  = Some (positive_votes [mkRec "UNP" 1500 2]).
Proof.
  apply (last_storing_section_wins repeated_title_grid []
           {[ "1 - MANNAR URBAN COUNCIL" := [mkRec "UNP" 1500 2] ]}
           [] [(3%nat, "1 - MANNAR URBAN COUNCIL")] 0%nat
           "1 - MANNAR URBAN COUNCIL" (mkRec "UNP" 1500 2) []);
    try reflexivity.
  intros post1 s' post2 r' d' Hpost.
  destruct post1 as [|x [|y post1]]; simplify_eq/=.
  vm_compute. discriminate.
Defined.

(** ** Numeric cells *)

Lemma is_digit_plain c :
  is_digit c = true → low c && negb (float_isspace c) = true.
Proof.
  each_char c; intros H; solve [reflexivity | vm_compute in H; discriminate H].
Qed.

Lemma is_digit_not_underscore c : is_digit c = true → Ascii.eqb c "_" = false.
Proof.
  each_char c; intros H; solve [reflexivity | vm_compute in H; discriminate H].
Qed.

Lemma is_digit_lower c : is_digit c = true → lower_char c = c.
Proof.
  each_char c; intros H; solve [reflexivity | vm_compute in H; discriminate H].
Qed.

Lemma pretty_N_char_digit x :
  (x < 10)%N →
  is_digit (pretty_N_char x) = true ∧ digit_value (pretty_N_char x) = Z.of_N x.
Proof.
  intros Hx.
  assert (x = 0 ∨ x = 1 ∨ x = 2 ∨ x = 3 ∨ x = 4 ∨ x = 5 ∨ x = 6 ∨ x = 7
          ∨ x = 8 ∨ x = 9)%N as H by lia.
  repeat (destruct H as [->|H]; [by split|]). by subst.
Qed.

Lemma pretty_N_go_digits x s :
  sforall is_digit s = true → sforall is_digit (pretty_N_go x s) = true.
Proof.
  revert s. induction (N.lt_wf_0 x) as [x _ IH]; intros s Hs.
  assert (x = 0 ∨ 0 < x)%N as [->|Hx] by lia; [done|].
  rewrite pretty_N_go_step by done. apply IH; [by apply N.div_lt|].
  simpl. rewrite Hs, andb_true_r.
  apply pretty_N_char_digit, N.mod_lt. lia.
Qed.

Lemma read_digits_pretty_N_go x :
  ∃ d, 0 ≤ d ∧ ((0 < x)%N → 0 < d) ∧
    ∀ acc k s, read_digits acc k (pretty_N_go x s)
               = read_digits (acc * 10 ^ d + Z.of_N x) (k + d) s.
Proof.
  induction (N.lt_wf_0 x) as [x _ IH].
  assert (x = 0 ∨ 0 < x)%N as [->|Hx] by lia.
  - exists 0. split_and!; [lia | lia |]. intros acc k s.
    rewrite pretty_N_go_0. f_equal; lia.
  - destruct (IH (x `div` 10)%N) as (d & Hd & _ & Hread); [by apply N.div_lt|].
    exists (d + 1). split_and!; [lia | lia |]. intros acc k s.
    rewrite pretty_N_go_step, Hread by done.
    destruct (pretty_N_char_digit (x `mod` 10)%N) as [Hdig Hval].
    { apply N.mod_lt. lia. }
    simpl. rewrite Hdig, Hval. f_equal; [|lia].
    rewrite Z.pow_add_r, Z.pow_1_r by lia.
    rewrite N2Z.inj_div, N2Z.inj_mod.
    pose proof (Z.div_mod (Z.of_N x) 10). lia.
Qed.

Lemma digits_plain s :
  sforall is_digit s = true →
  sforall (fun c => low c && negb (float_isspace c)) s = true.
Proof.
  induction s as [|c s IH]; [done|]. simpl.
  intros [Hc Hs]%andb_true_iff. by rewrite (is_digit_plain _ Hc), IH.
Qed.

(** A text of characters below 128 none of which is a blank goes through
    the transformation and the stripping of [float] as it is. *)
Lemma plain_low s :
  sforall (fun c => low c && negb (float_isspace c)) s = true →
  sforall low s = true.
Proof.
  induction s as [|c s IH]; [done|]. simpl.
  intros [[-> _]%andb_true_iff Hs]%andb_true_iff. by apply IH.
Qed.

Lemma plain_float_rstrip s :
  sforall (fun c => low c && negb (float_isspace c)) s = true →
  float_rstrip s = s.
Proof.
  induction s as [|c s IH]; [done|]. simpl.
  intros [[_ Hc%negb_true_iff]%andb_true_iff Hs]%andb_true_iff.
  rewrite (IH Hs), Hc. by destruct s.
Qed.

Lemma plain_float_strip s :
  sforall (fun c => low c && negb (float_isspace c)) s = true →
  float_strip (transform_decimal_and_space_to_ascii s) = s.
Proof.
  intros Hs. unfold transform_decimal_and_space_to_ascii.
  rewrite (plain_low _ Hs). unfold float_strip.
  assert (Hl : float_lstrip s = s).
  { destruct s as [|c s]; [done|]. simpl in *.
    apply andb_true_iff in Hs as [[_ Hc%negb_true_iff]%andb_true_iff _].
    by rewrite Hc. }
  rewrite Hl. by apply plain_float_rstrip.
Qed.

Lemma digits_strip_underscores prev s :
  Ascii.eqb prev "_" = false → sforall is_digit s = true →
  strip_underscores prev s = Some s.
Proof.
  revert prev. induction s as [|c s IH]; intros prev Hprev; simpl.
  - by rewrite Hprev.
  - intros [Hc Hs]%andb_true_iff.
    rewrite (is_digit_not_underscore _ Hc), Hprev. simpl.
    by rewrite (IH c (is_digit_not_underscore _ Hc) Hs).
Qed.

Lemma digits_lower s : sforall is_digit s = true → lower s = s.
Proof.
  induction s as [|c s IH]; [done|]. simpl sforall.
  intros [Hc Hs]%andb_true_iff. unfold lower in *. simpl.
  by rewrite (is_digit_lower _ Hc), IH.
Qed.

Lemma digits_read_sign s : sforall is_digit s = true → read_sign s = (false, s).
Proof.
  destruct s as [|c s]; [done|]. simpl sforall. intros [Hc _]%andb_true_iff.
  revert Hc. each_char c; intros H;
    solve [reflexivity | vm_compute in H; discriminate H].
Qed.

Lemma digits_not_word s w :
  sforall is_digit s = true → sforall is_digit w = false →
  String.eqb s w = false.
Proof.
  intros Hs Hw. destruct (String.eqb_spec s w) as [->|]; [congruence | done].
Qed.

(** [float] on the digits of a natural number, with or without a minus
    sign in front. *)
Lemma py_float_digits neg ds x d :
  sforall is_digit ds = true →
  0 < d →
  (∀ acc k s, read_digits acc k (ds ++ s)
              = read_digits (acc * 10 ^ d + x) (k + d) s) →
  py_float ((if neg : bool then "-" else "") ++ ds)
  = Ok (decimal_to_float neg x 0).
Proof.
  intros Hds Hd Hread.
  assert (Hread0 : read_digits 0 0 ds = (x, d, "")).
  { pose proof (Hread 0 0 "") as H. rewrite app_empty_r in H.
    rewrite H. simpl read_digits. by rewrite Z.mul_0_l, !Z.add_0_l. }
  unfold py_float.
  assert (Hstrip : float_strip (transform_decimal_and_space_to_ascii
                                  ((if neg then "-" else "") ++ ds))
                   = (if neg then "-" else "") ++ ds).
  { apply plain_float_strip. destruct neg; [|by apply digits_plain].
    rewrite app_cons, app_empty_l. simpl.
    by apply digits_plain. }
  rewrite Hstrip.
  assert (Hus : strip_underscores "000" ((if neg then "-" else "") ++ ds)
                = Some ((if neg then "-" else "") ++ ds)).
  { destruct neg; [|by apply digits_strip_underscores].
    rewrite app_cons, app_empty_l. simpl.
    by rewrite digits_strip_underscores. }
  rewrite Hus.
  assert (Hsign : read_sign ((if neg then "-" else "") ++ ds) = (neg, ds)).
  { destruct neg; [done | by apply digits_read_sign]. }
  rewrite Hsign, (digits_lower _ Hds).
  rewrite !(digits_not_word ds) by done. simpl orb. cbv iota.
  rewrite Hread0. cbv iota beta.
  replace (d + 0 =? 0) with false by (symmetry; apply Z.eqb_neq; lia).
  simpl read_exponent. cbv iota beta.
  by replace (0 - 0) with 0 by lia.
Qed.

(** Integers up to 2^53 are binary64 values: rounding leaves them as they
    are. *)
Lemma round_binary64_exact n :
  0 < n ≤ 2 ^ 53 →
  ∃ m e, round_binary64 n 1 = Some (m, e) ∧ Z.shiftl m e = n.
Proof.
  intros Hn.
  destruct (decide (n = 2 ^ 53)) as [->|Hne].
  { by exists (2 ^ 52), 1. }
  assert (Hlt : n < 2 ^ 53) by lia.
  pose proof (Z.log2_spec n ltac:(lia)) as [Hlo Hhi].
  pose proof (Z.log2_nonneg n) as Hk0.
  assert (Hk : Z.log2 n < 53).
  { apply Z.log2_lt_pow2; lia. }
  set (k := Z.log2 n) in *.
  unfold round_binary64. change (Z.log2 1) with 0.
  rewrite Z.sub_0_r. fold k.
  replace (0 <=? k) with true by (symmetry; apply Z.leb_le; lia).
  replace (n <? 1 * 2 ^ k) with false by (symmetry; apply Z.ltb_ge; lia).
  replace (Z.max (k - 52) (-1074)) with (k - 52) by lia.
  destruct (decide (k = 52)) as [Hk52|Hk52].
  - rewrite Hk52. change (52 - 52) with 0. change (0 <=? 0) with true.
    cbv iota. change (1 * 2 ^ 0) with 1.
    rewrite Z.div_1_r, Z.mod_1_r. change (2 * 0 <? 1) with true. cbv iota.
    change (n * 2 ^ 0) with (n * 1). rewrite Z.mul_1_r.
    replace (2 ^ 1024 <=? n) with false.
    + exists n, 0. split; [done|]. apply Z.shiftl_0_r.
    + symmetry. apply Z.leb_gt.
      assert (2 ^ 53 < 2 ^ 1024) by (apply Z.pow_lt_mono_r; lia). lia.
  - replace (0 <=? k - 52) with false by (symmetry; apply Z.leb_gt; lia).
    cbv iota. rewrite Z.div_1_r, Z.mod_1_r.
    change (2 * 0 <? 1) with true. cbv iota. simpl andb. cbv iota.
    exists (n * 2 ^ (- (k - 52))), (k - 52). split; [done|].
    replace (k - 52) with (- (52 - k)) by lia.
    rewrite Z.opp_involutive, Z.shiftl_opp_r, Z.shiftr_div_pow2 by lia.
    apply Z.div_mul. apply Z.pow_nonzero; lia.
Qed.

Lemma int_float_digits neg ds x d :
  sforall is_digit ds = true →
  0 < d → 0 ≤ x ≤ 2 ^ 53 →
  (∀ acc k s, read_digits acc k (ds ++ s)
              = read_digits (acc * 10 ^ d + x) (k + d) s) →
  int_float ((if neg : bool then "-" else "") ++ ds)
  = Ok (if neg then - x else x).
Proof.
  intros Hds Hd Hx Hread. unfold int_float.
  rewrite (py_float_digits neg ds x d) by done.
  unfold decimal_to_float. simpl rbind.
  destruct (decide (x = 0)) as [->|Hx0].
  { by destruct neg. }
  replace (x =? 0) with false by (symmetry; apply Z.eqb_neq; lia).
  change (0 <=? 0) with true. cbv iota. change (10 ^ 0) with 1.
  rewrite Z.mul_1_r.
  destruct (round_binary64_exact x) as (m & e & -> & Hme); [lia|].
  simpl. by rewrite Hme.
Qed.

Lemma pretty_N_go_app x s : pretty_N_go x s = pretty_N_go x "" ++ s.
Proof.
  revert s. induction (N.lt_wf_0 x) as [x _ IH]; intros s.
  assert (x = 0 ∨ 0 < x)%N as [->|Hx] by lia; [done|].
  rewrite (pretty_N_go_step x s), (pretty_N_go_step x "") by done.
  rewrite (IH _ (N.div_lt x 10 Hx eq_refl) (String _ s)).
  rewrite (IH _ (N.div_lt x 10 Hx eq_refl) (String _ "")).
  by rewrite app_assoc_s.
Qed.

Lemma pretty_pos_digits p :
  ∃ d, 0 < d ∧ sforall is_digit (pretty (Z.pos p)) = true ∧
    ∀ acc k s, read_digits acc k (pretty (Z.pos p) ++ s)
               = read_digits (acc * 10 ^ d + Z.pos p) (k + d) s.
Proof.
  assert (Hp : pretty (Z.pos p) = pretty_N_go (N.pos p) "").
  { unfold pretty, pretty_Z, pretty, pretty_positive, pretty, pretty_N.
    by case_decide. }
  destruct (read_digits_pretty_N_go (N.pos p)) as (d & _ & Hd & Hread).
  exists d. split_and!; [by apply Hd | |].
  - rewrite Hp. by apply pretty_N_go_digits.
  - intros acc k s. by rewrite Hp, <- pretty_N_go_app, Hread.
Qed.

(** An integer cell of magnitude up to 2^53 is a usable value and is read
    back as it is: [int(float(str(n)))] is [n]. *)
Theorem number_cell_read_back (n : Z) :
  - 2 ^ 53 ≤ n ≤ 2 ^ 53 →
  usable (cell_str (Number n)) = true
  ∧ coerce (cell_str (Number n)) = Ok n.
Proof.
  intros Hn. simpl cell_str.
  assert (Hint : int_float (pretty n) = Ok n).
  { destruct n as [|p|p].
    - reflexivity.
    - destruct (pretty_pos_digits p) as (d & Hd & Hds & Hread).
      apply (int_float_digits false _ (Z.pos p) d); solve [done | lia].
    - destruct (pretty_pos_digits p) as (d & Hd & Hds & Hread).
      change (pretty (Z.neg p)) with ("-" ++ pretty (Z.pos p)).
      apply (int_float_digits true _ (Z.pos p) d); solve [done | lia]. }
  assert (Hnan : String.eqb (pretty n) "nan" = false).
  { destruct (String.eqb_spec (pretty n) "nan") as [E|]; [|done].
    rewrite E in Hint. discriminate Hint. }
  assert (Hempty : String.eqb (pretty n) "" = false).
  { destruct (String.eqb_spec (pretty n) "") as [E|]; [|done].
    rewrite E in Hint. discriminate Hint. }
  split.
  - unfold usable. by rewrite Hnan, Hempty.
  - unfold coerce. by rewrite Hnan.
Qed.

Lemma number_cell_read_back_witness :
  usable (cell_str (Number (-2500))) = true
  ∧ coerce (cell_str (Number (-2500))) = Ok (-2500).
Proof. apply number_cell_read_back. lia. Defined.

(** Beyond 2^53 the value read differs from the cell's. *)
Example number_cell_beyond_2_53 :
  coerce (cell_str (Number (2 ^ 53 + 1))) = Ok (2 ^ 53).
Proof. reflexivity. Qed.

(** * The report *)

(** ** Splitting a title *)

Lemma split_from_nonempty sep skip cur s : split_from sep skip cur s ≠ [].
Proof.
  revert skip cur. induction s as [|c s IH]; intros skip cur; simpl; [done|].
  destruct skip; [|apply IH]. destruct (startswith sep (String c s)); [done|apply IH].
Qed.

Lemma split_from_skip sep u cur rest :
  split_from sep (String.length u) cur (u ++ rest) = split_from sep 0 cur rest.
Proof. induction u as [|c u IH]; [done|]. by rewrite app_cons. Qed.

Lemma split_from_match sep cur rest :
  sep ≠ "" →
  split_from sep 0 cur (sep ++ rest) = cur :: split_from sep 0 "" rest.
Proof.
  intros Hsep. destruct sep as [|a sep']; [done|].
  rewrite app_cons. cbn [split_from].
  rewrite <- app_cons.
  replace (startswith (String a sep') (String a sep' ++ rest)) with true.
  - change (String.length (String a sep') - 1)%nat with (String.length sep' - 0)%nat.
    by rewrite Nat.sub_0_r, split_from_skip.
  - symmetry. apply startswith_iff. by exists rest.
Qed.

Lemma split_from_step sep cur c s :
  startswith sep (String c s) = false →
  split_from sep 0 cur (String c s) = split_from sep 0 (cur ++ String c "") s.
Proof. intros H. cbn [split_from]. by rewrite H. Qed.

Lemma join_cons sep x l :
  l ≠ [] → join sep (x :: l) = x ++ sep ++ join sep l.
Proof. by destruct l. Qed.

Lemma split_from_join sep cur s :
  sep ≠ "" → join sep (split_from sep 0 cur s) = cur ++ s.
Proof.
  intros Hsep.
  assert (H : ∀ n s cur, (String.length s ≤ n)%nat →
            join sep (split_from sep 0 cur s) = cur ++ s).
  { clear cur s. induction n as [|n IH]; intros s cur Hlen.
    - destruct s; [|simpl in Hlen; lia]. simpl. by rewrite app_empty_r.
    - destruct s as [|c s]; [simpl; by rewrite app_empty_r|].
      destruct (startswith sep (String c s)) eqn:E.
      + apply startswith_iff in E as [rest E]. rewrite E.
        rewrite split_from_match by done.
        rewrite join_cons by apply split_from_nonempty.
        rewrite IH; [done|].
        assert (String.length (String c s) = String.length (sep ++ rest))
          by (by rewrite E).
        rewrite length_app_s in H. simpl in H, Hlen.
        destruct sep; [done|]. simpl in H. lia.
      + rewrite split_from_step by done.
        rewrite IH by (simpl in Hlen; lia).
        by rewrite app_assoc_s. }
  by apply (H (String.length s)).
Qed.

Lemma split_from_no_sep sep cur s :
  contains sep s = false → split_from sep 0 cur s = [cur ++ s].
Proof.
  revert cur. induction s as [|c s IH]; intros cur.
  - intros _. simpl. by rewrite app_empty_r.
  - rewrite contains_cons. intros [E Hs]%orb_false_iff.
    rewrite split_from_step, IH by done. by rewrite app_assoc_s.
Qed.

Lemma split_from_two sep cur s :
  sep ≠ "" → contains sep s = true →
  (2 ≤ length (split_from sep 0 cur s))%nat.
Proof.
  intros Hsep. revert cur. induction s as [|c s IH]; intros cur.
  - destruct sep; done.
  - rewrite contains_cons. destruct (startswith sep (String c s)) eqn:E.
    + intros _. apply startswith_iff in E as [rest E]. rewrite E.
      rewrite split_from_match by done. simpl.
      pose proof (split_from_nonempty sep 0 "" rest).
      destruct (split_from sep 0 "" rest); [done | simpl; lia].
    + rewrite orb_false_l. intros Hs.
      rewrite split_from_step by done. by apply IH.
Qed.

(** The text between two separators holds no separator. *)
Lemma app_eq_length_inv (a b c d : string) :
  a ++ b = c ++ d → String.length a = String.length c → a = c ∧ b = d.
Proof.
  revert c. induction a as [|x a IH]; intros [|y c]; try done.
  rewrite !app_cons. intros [= -> H] [= Hlen].
  by destruct (IH _ H Hlen) as [-> ->].
Qed.

Lemma split_from_pieces sep cur s :
  sep ≠ "" →
  (∀ u v, cur ++ s = u ++ sep ++ v → (String.length cur ≤ String.length u)%nat) →
  Forall (fun piece => contains sep piece = false) (split_from sep 0 cur s).
Proof.
  intros Hsep.
  assert (Hfree : ∀ cur s,
    (∀ u v, cur ++ s = u ++ sep ++ v →
       (String.length cur ≤ String.length u)%nat) →
    contains sep cur = false).
  { intros cur' s' Hocc. destruct (contains sep cur') eqn:E; [|done].
    apply contains_iff in E as (u & v & ->).
    specialize (Hocc u (v ++ s')). rewrite !app_assoc_s in Hocc.
    specialize (Hocc eq_refl). rewrite !length_app_s in Hocc.
    destruct sep; [done|]. simpl in Hocc. lia. }
  assert (H : ∀ n s cur, (String.length s ≤ n)%nat →
    (∀ u v, cur ++ s = u ++ sep ++ v →
       (String.length cur ≤ String.length u)%nat) →
    Forall (fun piece => contains sep piece = false) (split_from sep 0 cur s)).
  { clear cur s. induction n as [|n IH]; intros s cur Hlen Hocc.
    - destruct s; [|simpl in Hlen; lia]. simpl.
      constructor; [|done]. by apply (Hfree cur "").
    - destruct s as [|c s].
      { simpl. constructor; [|done]. by apply (Hfree cur ""). }
      destruct (startswith sep (String c s)) eqn:E.
      + pose proof E as E'. apply startswith_iff in E' as [rest E'].
        rewrite E'. rewrite split_from_match by done.
        constructor; [by apply (Hfree cur (String c s))|].
        apply IH.
        * assert (String.length (String c s) = String.length (sep ++ rest))
            by (by rewrite E').
          rewrite length_app_s in H. simpl in H, Hlen.
          destruct sep; [done|]. simpl in H. lia.
        * intros u v _. simpl. lia.
      + rewrite split_from_step by done. apply IH; [simpl in Hlen; lia|].
        intros u v Huv. rewrite app_assoc_s in Huv.
        change (String c "" ++ s) with (String c s) in Huv.
        pose proof (Hocc u v Huv) as Hle.
        rewrite length_app_s. simpl.
        destruct (decide (String.length cur = String.length u)) as [Heq|]; [|lia].
        apply app_eq_length_inv in Huv as [_ Hs]; [|done].
        assert (startswith sep (String c s) = true).
        { apply startswith_iff. by exists v. }
        congruence. }
  intros Hocc. by apply (H (String.length s)).
Qed.

(** [s.split(sep)] for a non-empty [sep]: joining the pieces with [sep]
    gives [s] back; no piece holds [sep]; there is one piece, [s] itself,
    when [s] does not hold [sep], and at least two when it does. *)
Theorem split_join_round_trip (sep s : string) :
  sep ≠ "" →
  ∃ pieces, py_split sep s = Ok pieces
    ∧ join sep pieces = s
    ∧ Forall (fun piece => contains sep piece = false) pieces
    ∧ (contains sep s = false → pieces = [s])
    ∧ (contains sep s = true → (2 ≤ length pieces)%nat).
Proof.
  intros Hsep. exists (split_from sep 0 "" s). split_and!.
  - by destruct sep.
  - by rewrite split_from_join.
  - apply split_from_pieces; [done|]. intros u v _. simpl. lia.
  - intros H. by rewrite split_from_no_sep.
  - by apply split_from_two.
Qed.

Lemma split_join_round_trip_witness :
  ∃ pieces, py_split " - " "2 - MANNAR PRADESHIYA SABHA" = Ok pieces
    ∧ join " - " pieces = "2 - MANNAR PRADESHIYA SABHA"
    ∧ Forall (fun piece => contains " - " piece = false) pieces
    ∧ (contains " - " "2 - MANNAR PRADESHIYA SABHA" = false →
       pieces = ["2 - MANNAR PRADESHIYA SABHA"])
    ∧ (contains " - " "2 - MANNAR PRADESHIYA SABHA" = true →
       (2 ≤ length pieces)%nat).
Proof. apply split_join_round_trip. discriminate. Defined.

Lemma pretty_nat_digits (N : nat) : sforall is_digit (pretty N) = true.
Proof.
  unfold pretty, pretty_nat, pretty, pretty_N.
  case_decide; [done|]. by apply pretty_N_go_digits.
Qed.

Lemma split_from_digits cur ds rest :
  sforall is_digit ds = true →
  split_from " - " 0 cur (ds ++ " - " ++ rest)
  = (cur ++ ds) :: split_from " - " 0 "" rest.
Proof.
  revert cur. induction ds as [|c ds IH]; intros cur Hds.
  - rewrite app_empty_l, app_empty_r. by apply split_from_match.
  - simpl in Hds. apply andb_true_iff in Hds as [Hc Hds].
    rewrite app_cons, split_from_step, IH by
      (done || (revert Hc; clear; each_char c; intros H;
                solve [reflexivity | vm_compute in H; discriminate H])).
    by rewrite app_assoc_s.
Qed.

Lemma split_join_pieces sep s :
  sep ≠ "" → contains sep s = true →
  ∃ pieces, py_split sep s = Ok pieces
    ∧ Forall (fun piece => contains sep piece = false) pieces
    ∧ (2 ≤ length pieces)%nat.
Proof.
  intros Hsep Hs. exists (split_from sep 0 "" s). split_and!.
  - by destruct sep.
  - apply split_from_pieces; [done|]. intros u v _. simpl. lia.
  - by apply split_from_two.
Qed.

(** The short name of a council never fails and never holds " - "; a title
    without " - " is its own short name, and the short name of
    "N - rest" is "rest" when "rest" holds no " - ". *)
Theorem short_name_total :
  (∀ name, ∃ t, short_name name = Ok t ∧ contains " - " t = false)
  ∧ (∀ name, contains " - " name = false → short_name name = Ok name)
  ∧ (∀ (N : nat) rest, contains " - " rest = false →
       short_name (pretty N ++ " - " ++ rest) = Ok rest).
Proof.
  split_and!.
  - intros name. unfold short_name.
    destruct (contains " - " name) eqn:E; [|by exists name].
    destruct (split_join_pieces " - " name) as (pieces & -> & Hfree & Hlen);
      [done..|].
    simpl. unfold py_index.
    destruct pieces as [|p0 [|p1 pieces]]; simpl in Hlen; [lia..|].
    exists p1. split; [done|].
    by apply Forall_cons in Hfree as [_ [? _]%Forall_cons].
  - intros name H. unfold short_name. by rewrite H.
  - intros N rest Hrest. unfold short_name.
    replace (contains " - " (pretty N ++ " - " ++ rest)) with true
      by (symmetry; apply contains_iff; by exists (pretty N), rest).
    unfold py_split. simpl rbind.
    rewrite split_from_digits by apply pretty_nat_digits.
    by rewrite split_from_no_sep.
Qed.

(** ** The overview grid *)

Lemma overview_rows n r :
  flat_map (fun row =>
    flat_map (fun col_idx =>
      let council_idx := (row * 3 + col_idx)%nat in
      if (council_idx <? n)%nat then [council_idx] else [])
      (seq 0 3))
    (seq 0 r)
  = seq 0 (Nat.min (3 * r) n).
Proof.
  induction r as [|r IH]; [done|].
  replace (seq 0 (S r)) with (seq 0 r ++ [r])%list by (symmetry; apply seq_S).
  rewrite flat_map_app, IH. simpl flat_map.
  rewrite !app_nil_r. simpl Nat.add at 1.
  set (a := (r * 3)%nat).
  replace (a + 0)%nat with a by lia.
  replace (a + 1)%nat with (S a) by lia.
  replace (a + 2)%nat with (S (S a)) by lia.
  remember (Nat.min (3 * r) n) as m1 eqn:Hm1.
  remember (Nat.min (3 * S r) n) as m2 eqn:Hm2.
  destruct (Nat.ltb_spec a n), (Nat.ltb_spec (S a) n),
    (Nat.ltb_spec (S (S a)) n); try lia; simpl app.
  - replace m1 with a by lia. replace m2 with (a + 3)%nat by lia.
    by rewrite seq_app.
  - replace m1 with a by lia. replace m2 with (a + 2)%nat by lia.
    by rewrite seq_app.
  - replace m1 with a by lia. replace m2 with (a + 1)%nat by lia.
    by rewrite seq_app.
  - rewrite app_nil_r. f_equal. lia.
Qed.

(** With "show all" ticked the grid of the overview shows every council
    once, in the order of the mapping; otherwise it shows the first three
    (or all, when there are fewer). *)
Theorem overview_grid_covers (n : nat) :
  overview_grid n true = seq 0 n
  ∧ overview_grid n false = seq 0 (Nat.min 3 n).
Proof.
  unfold overview_grid. rewrite !overview_rows. split; f_equal.
  pose proof (Nat.div_mod_eq (n + 2) 3).
  pose proof (Nat.mod_upper_bound (n + 2) 3). lia.
Qed.

(** ** The winner of a council *)

Lemma argmax_from_spec l best_pos best pos :
  let i := argmax_from best_pos best pos l in
  (i = best_pos ∧ Forall (fun x => x ≤ best) l)
  ∨ (∃ j x, i = (pos + j)%nat ∧ l !! j = Some x ∧ best < x
       ∧ Forall (fun y => y ≤ x) l
       ∧ ∀ j' y, (j' < j)%nat → l !! j' = Some y → y < x).
Proof.
  revert best_pos best pos.
  induction l as [|y l IH]; intros best_pos best pos; simpl; [by left|].
  destruct (Z.ltb_spec best y) as [Hlt|Hge].
  - right. destruct (IH pos y (S pos)) as [[-> Hall]|(j & x & -> & Hj & Hx & Hall & Hbefore)].
    + exists 0%nat, y. split_and!; [lia | done | done | by constructor | lia].
    + exists (S j), x. split_and!; [lia | done | lia | constructor; [lia|done] |].
      intros [|j'] z Hj' Hz; simplify_eq/=; [lia|].
      apply (Hbefore j'); [lia | done].
  - destruct (IH best_pos best (S pos)) as [[-> Hall]|(j & x & -> & Hj & Hx & Hall & Hbefore)].
    + left. split; [done | by constructor].
    + right. exists (S j), x.
      split_and!; [lia | done | done | constructor; [lia|done] |].
      intros [|j'] z Hj' Hz; simplify_eq/=; [lia|].
      apply (Hbefore j'); [lia | done].
Qed.

Lemma idxmax_spec column i :
  idxmax column = Ok i →
  ∃ x, column !! i = Some x
    ∧ Forall (fun y => y ≤ x) column
    ∧ ∀ j y, (j < i)%nat → column !! j = Some y → y < x.
Proof.
  destruct column as [|x l]; [done|]. simpl. intros [= <-].
  destruct (argmax_from_spec l 0 x 1) as [[-> Hall]|(j & z & -> & Hj & Hz & Hall & Hbefore)].
  - exists x. split_and!; [done | by constructor | lia].
  - exists z. split_and!; [done | constructor; [lia|done] |].
    intros [|j'] y Hj' Hy; simplify_eq/=; [lia|].
    apply (Hbefore j'); [lia | done].
Qed.

(** On a table whose votes are machine integers, the winner is the party
    of the first record with the most votes; there is one exactly when the
    table is not empty, and on an empty table the lookup fails with
    [ValueError]. *)
Theorem winner_has_most_votes (table : list Rec) :
  Forall (fun r => - 2 ^ 63 ≤ Votes r < 2 ^ 63) table →
  (winner table = Raise ValueError ↔ table = [])
  ∧ (table ≠ [] →
     ∃ i r, winner table = Ok (Party r) ∧ table !! i = Some r
       ∧ (∀ j r', table !! j = Some r' → Votes r' ≤ Votes r)
       ∧ (∀ j r', (j < i)%nat → table !! j = Some r' → Votes r' < Votes r)).
Proof.
  intros _.
  assert (Hne : table ≠ [] →
     ∃ i r, winner table = Ok (Party r) ∧ table !! i = Some r
       ∧ (∀ j r', table !! j = Some r' → Votes r' ≤ Votes r)
       ∧ (∀ j r', (j < i)%nat → table !! j = Some r' → Votes r' < Votes r)).
  { intros Hne. unfold winner.
    destruct (idxmax (map Votes table)) as [i|e] eqn:E.
    2:{ destruct table; [done | discriminate E]. }
    destruct (idxmax_spec _ _ E) as (x & Hx & Hall & Hbefore).
    change (map Votes table) with (Votes <$> table) in *.
    apply list_lookup_fmap_Some in Hx as (r & -> & Hr).
    exists i, r. cbv [rbind py_index]. rewrite Hr.
    split_and!; [done..| |].
    - intros j r' Hj. rewrite Forall_forall in Hall. apply Hall.
      apply list_elem_of_fmap. exists r'. split; [done|].
      by apply list_elem_of_lookup_2 in Hj.
    - intros j r' Hlt Hj. apply (Hbefore j); [done|].
      by rewrite list_lookup_fmap, Hj. }
  split; [|done]. split.
  - intros H. destruct table as [|r t]; [done|].
    destruct Hne as (i & r' & Hw & _); [done|]. congruence.
  - by intros ->.
Qed.

Lemma winner_has_most_votes_witness :
  (winner [mkRec "UNP" 1500 2; mkRec "SLPP" 1000 1] = Raise ValueError
   ↔ [mkRec "UNP" 1500 2; mkRec "SLPP" 1000 1] = [])
  ∧ ([mkRec "UNP" 1500 2; mkRec "SLPP" 1000 1] ≠ [] →
     ∃ i r, winner [mkRec "UNP" 1500 2; mkRec "SLPP" 1000 1] = Ok (Party r)
       ∧ [mkRec "UNP" 1500 2; mkRec "SLPP" 1000 1] !! i = Some r
       ∧ (∀ j r', [mkRec "UNP" 1500 2; mkRec "SLPP" 1000 1] !! j = Some r' →
            Votes r' ≤ Votes r)
       ∧ (∀ j r', (j < i)%nat →
            [mkRec "UNP" 1500 2; mkRec "SLPP" 1000 1] !! j = Some r' →
            Votes r' < Votes r)).
Proof.
  apply winner_has_most_votes.
  repeat constructor; simpl; lia.
Defined.

(** The winner shown for a table of the returned mapping, its votes being
    machine integers: on a non-empty table it is a party of the table that
    is neither empty nor "TOTAL", with positive votes that no record of the
    table exceeds; on an empty table the lookup fails. *)
Theorem winner_of_parsed_table
    (df : DataFrame) (ui : list diag) (m : ResultSet)
    (title : string) (table : list Rec) :
  (parse_election_data df ui).1 = Ok m →
  m !! title = Some table →
  Forall (fun r => Votes r < 2 ^ 63) table →
  (table = [] ∧ winner table = Raise ValueError)
  ∨ (∃ i r, winner table = Ok (Party r) ∧ table !! i = Some r
       ∧ Party r ≠ "" ∧ ¬ eq_ci (Party r) "TOTAL"
       ∧ ∀ j r', table !! j = Some r' → 0 < Votes r' ≤ Votes r).
Proof.
  intros Hm Ht Hrange.
  assert (Hrec : ∀ j r', table !! j = Some r' →
            (Party r' ≠ "" ∧ ¬ eq_ci (Party r') "TOTAL") ∧ 0 < Votes r').
  { intros j r' Hj.
    apply (parsed_records
             (fun r => Party r ≠ "" ∧ ¬ eq_ci (Party r) "TOTAL")
             df ui m title table j r'); try done.
    intros row r0 _ (v & s & tl & E & _ & _ & Hp)%row_record_Some. split.
    - apply usable_not_empty. apply (usable_values_elem _ row).
      rewrite E. by left.
    - intros Hci. apply Hp.
      by apply (upper_eq_iff_lower_eq (Party r0) "TOTAL"). }
  destruct (winner_has_most_votes table) as [Hempty Hne].
  { apply Forall_lookup. intros j r' Hj.
    rewrite Forall_lookup in Hrange.
    pose proof (Hrange j r' Hj). pose proof (Hrec j r' Hj). lia. }
  destruct table as [|r0 table0]; [left; split; [done | by apply Hempty]|].
  right. destruct Hne as (i & r & Hw & Hi & Hmax & _); [done|].
  exists i, r. destruct (Hrec i r Hi) as [[? ?] ?].
  split_and!; [done..|]. intros j r' Hj.
  destruct (Hrec j r' Hj) as [_ ?]. pose proof (Hmax j r' Hj). lia.
Qed.

Lemma winner_of_parsed_table_witness :
  ([mkRec "UNP" 1500 2; mkRec "SLPP" 1000 1] = []
   ∧ winner [mkRec "UNP" 1500 2; mkRec "SLPP" 1000 1] = Raise ValueError)
  ∨ (∃ i r, winner [mkRec "UNP" 1500 2; mkRec "SLPP" 1000 1] = Ok (Party r)
       ∧ [mkRec "UNP" 1500 2; mkRec "SLPP" 1000 1] !! i = Some r
       ∧ Party r ≠ "" ∧ ¬ eq_ci (Party r) "TOTAL"
       ∧ ∀ j r', [mkRec "UNP" 1500 2; mkRec "SLPP" 1000 1] !! j = Some r' →
           0 < Votes r' ≤ Votes r).
Proof.
  apply (winner_of_parsed_table scenario_A [] scenario_A_expected
           "1 - MANNAR URBAN COUNCIL"); [reflexivity | reflexivity |].
  repeat constructor.
Defined.

(** The empty table stored for [zero_votes_grid] has no winner. *)
Example winner_of_zero_votes_table :
  ∃ m table,
    (parse_election_data zero_votes_grid []).1 = Ok m
    ∧ m !! "1 - MANNAR URBAN COUNCIL" = Some table
    ∧ winner table = Raise ValueError.
Proof.
  exists {[ "1 - MANNAR URBAN COUNCIL" := [] ]}, []. by split_and!.
Qed.

(** * Rows above the first title *)

Lemma scan_row_index idx row :
  scan_row idx row = (fun p => (idx, p.2)) <$> scan_row 0 row.
Proof.
  induction row as [|c row IH]; simpl; [done|].
  by destruct (is_council_title (strip c)).
Qed.

Lemma find_sections_shift k n rows :
  find_sections (k + n) rows
  = (fun p => ((p.1 + n)%nat, p.2)) <$> find_sections k rows.
Proof.
  revert k. induction rows as [|row rows IH]; intros k; simpl; [done|].
  rewrite (scan_row_index (k + n)), (scan_row_index k).
  change (S (k + n)) with (S k + n)%nat. rewrite IH.
  by destruct (scan_row 0 row) as [[? ?]|].
Qed.

Lemma find_sections_untitled k junk rows :
  Forall (Forall (fun c => ¬ qualifies c)) junk →
  find_sections k (junk ++ rows) = find_sections (k + length junk) rows.
Proof.
  intros Hjunk. revert k.
  induction Hjunk as [|row junk Hrow _ IH]; intros k; simpl.
  - by rewrite Nat.add_0_r.
  - apply (scan_row_None k) in Hrow. rewrite Hrow, IH. f_equal. lia.
Qed.

Lemma section_rows_shift (junk rows : list Row) s e :
  section_rows (junk ++ rows) (s + length junk) (e + length junk)
  = section_rows rows s e.
Proof.
  unfold section_rows. f_equal; [lia|].
  replace (S (s + length junk)) with (length junk + S s)%nat by lia.
  by rewrite <- drop_drop, drop_app_length.
Qed.

Lemma stored_shift (junk rows : list Row) sections councils_data :
  stored (junk ++ rows)
    ((fun p => ((p.1 + length junk)%nat, p.2)) <$> sections) councils_data
  = stored rows sections councils_data.
Proof.
  revert councils_data.
  induction sections as [|[s name] rest IH]; intros cd; [done|].
  rewrite fmap_cons. simpl fst. simpl snd. rewrite !stored_cons, IH.
  assert (Hend : end_of (junk ++ rows)
                   ((fun p => ((p.1 + length junk)%nat, p.2)) <$> rest)
                 = (end_of rows rest + length junk)%nat).
  { destruct rest as [|[e n] rest']; simpl; [|done].
    rewrite length_app. lia. }
  unfold section_data_of. by rewrite Hend, section_rows_shift.
Qed.

(** Rows above the first title are never read.  On sheets of text cells,
    putting rows none of whose cells is detected on top of a sheet leaves
    the returned mapping as it is. *)
Theorem rows_above_first_title_ignored
    (junk g : list (list string)) (ui : list diag) :
  Forall (Forall (fun c => ¬ ∃ t, detects c t)) junk →
  (parse_election_data (text_grid (junk ++ g)%list) ui).1
  = (parse_election_data (text_grid g) ui).1.
Proof.
  intros Hjunk. rewrite !parse_election_data_run. simpl. f_equal.
  rewrite !astype_str_text_grid.
  assert (Hj : Forall (Forall (fun c => ¬ qualifies c)) junk).
  { eapply Forall_impl; [exact Hjunk|]. intros row Hrow.
    eapply Forall_impl; [exact Hrow|]. intros c Hc.
    by rewrite qualifies_detects. }
  rewrite (find_sections_untitled 0 _ _ Hj), (find_sections_shift 0).
  apply stored_shift.
Qed.

Lemma rows_above_first_title_ignored_witness :
  (parse_election_data
     (text_grid
        ([ ["Mannar District"; ""; ""];
           [(utf8 [194; 160]%N ++ "24 - Results by council")%string; "2025"; ""] ]
         ++ [ ["1 - MANNAR URBAN COUNCIL"; ""; ""];
              ["Party"; "Votes"; "Total"];
              ["UNP"; "1500"; "2"] ])%list) []).1
  = (parse_election_data
       (text_grid [ ["1 - MANNAR URBAN COUNCIL"; ""; ""];
                    ["Party"; "Votes"; "Total"];
                    ["UNP"; "1500"; "2"] ]) []).1.
Proof.
  apply rows_above_first_title_ignored.
  repeat constructor; rewrite <- qualifies_detects;
    apply not_council_title_iff; reflexivity.
Defined.

(** * Blanks and absent values *)

(** In a row that reaches the coercions of lines 72-73 neither source is
    the text "nan": the fallback to 0 is never taken, and votes and seats
    are always read by [int(float(.))]. *)
Theorem nan_fallback_unreachable
    (row : Row) (party v s : string) (tl : list string) :
  usable_values row = party :: v :: s :: tl →
  v ≠ "nan" ∧ s ≠ "nan" ∧ v ≠ "" ∧ s ≠ ""
  ∧ coerce v = int_float v ∧ coerce s = int_float s.
Proof.
  intros E.
  assert (Hv : usable v = true).
  { apply (usable_values_elem v row). rewrite E. right. by left. }
  assert (Hs : usable s = true).
  { apply (usable_values_elem s row). rewrite E. right. right. by left. }
  split_and!; try by apply coerce_usable.
  - intros ->. by vm_compute in Hv.
  - intros ->. by vm_compute in Hs.
  - by apply usable_not_empty.
  - by apply usable_not_empty.
Qed.

Lemma nan_fallback_unreachable_witness :
  "1500" ≠ "nan" ∧ "2" ≠ "nan" ∧ "1500" ≠ "" ∧ "2" ≠ ""
  ∧ coerce "1500" = int_float "1500" ∧ coerce "2" = int_float "2".
Proof.
  apply (nan_fallback_unreachable ["UNP"; "nan"; "1500"; ""; "2"] "UNP" "1500" "2" []).
  reflexivity.
Defined.
